(** * ppt_helper: text substitution over styled runs and package surgery

    A shallow embedding of [src/ppt_helper.py], and what holds of it.

    Definitions
    - [PyStr]   : the [str] methods the module calls ([strip], [lower],
                  [find], [replace], slicing, [startswith], [endswith]).
    - [Re]      : the fragment of Python's [re] in which the module builds
                  its patterns: [re.escape], compilation, [re.finditer].
    - [Engine]  : [placeholder_patterns] and the nested helper
                  [replace_in_text]; python-pptx runs are mutable proxies
                  of XML elements, and removing an element twice raises.
    - [Walker]  : [replace_text]: validation, loading, the traversal of
                  slides, shapes, text frames and chart titles, saving.
    - [Surgeon] : [get_embedded_excel_paths], [extract_embedded_excel_files]
                  and [replace_embedded_excel_files] over zip archives in a
                  file system, with what [zipfile] and [shutil.move] do to
                  the metadata and to the file that is written over.
    - [Examples]: sample documents and packages.
    - [Bridge]  : [refresh_all_charts_in_pptx] as a log of COM calls.
    - [Old]     : [replace_text_old], over the functions of [re] it calls.

    Facts
    - [ReFacts], [EngineFacts], [WalkerFacts], [SurgeonFacts], [EngineMore],
      [WalkerMore], [PyStrFacts], [SurgeonMore], [BridgeFacts], [OldFacts],
      [WordFacts]: lemmas about the definitions above.
    - [TextClaims], [CountClaims], [PackageClaims]: the statements about
      the behaviour of the text substitution and of the package surgery.
    - [TextExtras], [PackageExtras], [BridgeExtras], [OldExtras],
      [WordExtras]: further properties.

    Text is modelled as [string], read as code points below 256; case
    folding, white space and the word-character test are those of Python
    on that range. Exceptions are values of [result]; the [try] block of
    [replace_text] turns every one of them into (false, 0). *)

From Stdlib Require Import ZArith String Ascii Bool.
From stdpp Require Import gmap strings list.

Local Open Scope string_scope.
Local Open Scope Z_scope.

(* ===================================================================== *)
(** ** Python strings *)
(* ===================================================================== *)

Module PyStr.

(** A [str] is modelled as a string of code points below 256 (the
    Latin-1 range of Unicode); the character classes below are those of
    Python on that range. Text with other characters is outside the
    model. *)

Definition code (c : ascii) : N := N_of_ascii c.

Definition between (lo hi : N) (c : ascii) : bool :=
  ((lo <=? code c) && (code c <=? hi))%N.

(** The ASCII letters and digits, as the pattern parser of [re] tells
    them apart ([ASCIILETTERS] and [DIGITS]). *)
Definition isupper (c : ascii) : bool := between 65 90 c.
Definition islower (c : ascii) : bool := between 97 122 c.
Definition isdigit (c : ascii) : bool := between 48 57 c.
Definition isalnum (c : ascii) : bool := isupper c || islower c || isdigit c.

(** [str.isspace], which is what [str.strip] removes: TAB..CR, FS..US,
    the space, U+0085 and U+00A0. *)
Definition isspace (c : ascii) : bool :=
  between 9 13 c || between 28 32 c || between 133 133 c || between 160 160 c.

(** The characters that [str.lower] changes: A..Z and the capital
    letters U+00C0..U+00DE without the multiplication sign U+00D7; each
    of them is 32 below its small letter. *)
Definition cased_upper (c : ascii) : bool :=
  between 65 90 c || between 192 214 c || between 216 222 c.

Definition lower_char (c : ascii) : ascii :=
  if cased_upper c then ascii_of_N (code c + 32) else c.

(** The word characters: [str.isalnum] or the underscore, which is what
    [\w] and [\b] of a [str] pattern go by. *)
Definition isword (c : ascii) : bool :=
  isalnum c || between 95 95 c
  || between 170 170 c || between 178 179 c || between 181 181 c
  || between 185 186 c || between 188 190 c
  || between 192 214 c || between 216 246 c || between 248 255 c.

(** [s.lower()] *)
Fixpoint lower (s : string) : string :=
  match s with
  | EmptyString => EmptyString
  | String c s' => String (lower_char c) (lower s')
  end.

(** [len(s)] *)
Definition len (s : string) : Z := Z.of_nat (String.length s).

(** [not s] / [bool(s)] for a string. *)
Definition is_empty (s : string) : bool :=
  match s with EmptyString => true | String _ _ => false end.

Fixpoint lstrip (s : string) : string :=
  match s with
  | EmptyString => EmptyString
  | String c s' => if isspace c then lstrip s' else s
  end.

Fixpoint rstrip (s : string) : string :=
  match s with
  | EmptyString => EmptyString
  | String c s' =>
      let t := rstrip s' in
      if is_empty t && isspace c then EmptyString else String c t
  end.

(** [s.strip()] *)
Definition strip (s : string) : string := rstrip (lstrip s).

(** [s.startswith(p)] *)
Definition startswith (s p : string) : bool := String.prefix p s.

(** [s.endswith(p)] *)
Definition endswith (s p : string) : bool :=
  String.prefix (String.rev p) (String.rev s).

(** A slice bound as Python normalises it: a negative bound counts from
    the end, and the result is clamped to [0, len s]. *)
Definition bound (s : string) (i : Z) : nat :=
  let i := if i <? 0 then i + len s else i in
  Z.to_nat (Z.min (len s) (Z.max 0 i)).

(** [s[:e]] *)
Definition slice_to (s : string) (e : Z) : string :=
  String.substring 0 (bound s e) s.

(** [s[b:]] *)
Definition slice_from (s : string) (b : Z) : string :=
  String.substring (bound s b) (String.length s - bound s b) s.

(** [s.find(sub, start)]: the lowest index at or after [start] where
    [sub] occurs, or -1. *)
Definition find (s sub : string) (start : Z) : Z :=
  let start := if start <? 0 then Z.max 0 (start + len s) else start in
  match String.index (Z.to_nat start) sub s with
  | Some i => Z.of_nat i
  | None => -1
  end.

(** [s.replace(old, new)] for a non-empty [old]: occurrences are replaced
    left to right without overlap. [skip] counts the characters of the
    occurrence just replaced that are still to be passed over. *)
Fixpoint replace_from (skip : nat) (old new s : string) : string :=
  match s with
  | EmptyString => EmptyString
  | String c s' =>
      match skip with
      | S k => replace_from k old new s'
      | O =>
          if String.prefix old s
          then new +:+ replace_from (String.length old - 1) old new s'
          else String c (replace_from O old new s')
      end
  end.

Definition replace (s old new : string) : string := replace_from O old new s.

(** ["".join(parts)] *)
Definition join (parts : list string) : string := String.concat "" parts.

End PyStr.

(* ===================================================================== *)
(** ** Python regular expressions *)
(* ===================================================================== *)

Module Re.
Import PyStr.

(** The characters [re.escape] puts a backslash before
    ([_special_chars_map] of the standard library). *)
Definition special_chars : string :=
  String "009" (String "010" (String "011" (String "012" (String "013"
    " #$&()*+-.?[\]^{|}~")))).

Fixpoint mem (c : ascii) (s : string) : bool :=
  match s with
  | EmptyString => false
  | String d s' => Ascii.eqb c d || mem c s'
  end.

Definition is_special (c : ascii) : bool := mem c special_chars.

(** [re.escape(s)] *)
Fixpoint escape (s : string) : string :=
  match s with
  | EmptyString => EmptyString
  | String c s' =>
      if is_special c then String "\" (String c (escape s'))
      else String c (escape s')
  end.

(** *** Compiled patterns

    The fragment of the pattern language that the program can build:
    literals, escaped literals, [\b], capture groups and character sets
    (optionally negated, optionally under a greedy [+]). A capture group
    has no effect on where a pattern matches. *)

Inductive charset := CharSet (negate : bool) (members : list ascii).

Inductive regex :=
| Eps
| Lit (c : ascii)
| Boundary
| In (cs : charset)
| InPlus (cs : charset)
| Seq (r1 r2 : regex)
| Group (r : regex).

Fixpoint seq_of (rs : list regex) : regex :=
  match rs with
  | [] => Eps
  | r :: rs' => Seq r (seq_of rs')
  end.

(** The literal pattern of a string. *)
Fixpoint lits (s : string) : list regex :=
  match s with
  | EmptyString => []
  | String c s' => Lit c :: lits s'
  end.

(** *** The pattern parser

    One pass over the pattern text. [cur] holds the items of the group
    being read, most recent first; [stack] holds the enclosing groups. *)

Inductive mode :=
| MNormal
| MEscape
| MSetOpen
| MSet (negate first : bool) (acc : list ascii)
| MSetEscape (negate : bool) (acc : list ascii)
| MSetDone (cs : charset).

Record pstate := PState {
  p_mode : mode;
  p_cur : list regex;
  p_stack : list (list regex)
}.

(** Characters with a meaning of their own that the fragment leaves out. *)
Definition unsupported_meta (c : ascii) : bool := mem c ".^$*+?{|".

Definition step_normal (c : ascii) (cur : list regex)
    (stack : list (list regex)) : option pstate :=
  if Ascii.eqb c "\" then Some (PState MEscape cur stack)
  else if Ascii.eqb c "(" then Some (PState MNormal [] (cur :: stack))
  else if Ascii.eqb c ")" then
    match stack with
    | parent :: stack' =>
        Some (PState MNormal (Group (seq_of (rev cur)) :: parent) stack')
    | [] => None
    end
  else if Ascii.eqb c "[" then Some (PState MSetOpen cur stack)
  else if unsupported_meta c then None
  else Some (PState MNormal (Lit c :: cur) stack).

Definition step_set (c : ascii) (negate first : bool) (acc : list ascii)
    (cur : list regex) (stack : list (list regex)) : option pstate :=
  if Ascii.eqb c "]" then
    if first then Some (PState (MSet negate false (c :: acc)) cur stack)
    else Some (PState (MSetDone (CharSet negate (rev acc))) cur stack)
  else if Ascii.eqb c "\" then Some (PState (MSetEscape negate acc) cur stack)
  else if Ascii.eqb c "-" then None
  else Some (PState (MSet negate false (c :: acc)) cur stack).

Definition step (st : pstate) (c : ascii) : option pstate :=
  let '(PState m cur stack) := st in
  match m with
  | MNormal => step_normal c cur stack
  | MEscape =>
      if Ascii.eqb c "b" then Some (PState MNormal (Boundary :: cur) stack)
      else if isalnum c then None
      else Some (PState MNormal (Lit c :: cur) stack)
  | MSetOpen =>
      if Ascii.eqb c "^" then Some (PState (MSet true true []) cur stack)
      else step_set c false true [] cur stack
  | MSet negate first acc => step_set c negate first acc cur stack
  | MSetEscape negate acc =>
      if isalnum c then None
      else Some (PState (MSet negate false (c :: acc)) cur stack)
  | MSetDone cs =>
      if Ascii.eqb c "+" then Some (PState MNormal (InPlus cs :: cur) stack)
      else step_normal c (In cs :: cur) stack
  end.

Fixpoint parse (st : pstate) (s : string) : option regex :=
  match s with
  | String c s' =>
      match step st c with
      | Some st' => parse st' s'
      | None => None
      end
  | EmptyString =>
      match p_mode st, p_stack st with
      | MNormal, [] => Some (seq_of (rev (p_cur st)))
      | MSetDone cs, [] => Some (seq_of (rev (In cs :: p_cur st)))
      | _, _ => None
      end
  end.

(** [re.compile(pattern)]; [None] stands for [re.error] (or for a pattern
    outside the fragment). *)
Definition compile (pattern : string) : option regex :=
  parse (PState MNormal [] []) pattern.

(** *** Matching *)

Definition char_eq (ignorecase : bool) (a b : ascii) : bool :=
  if ignorecase then Ascii.eqb (lower_char a) (lower_char b)
  else Ascii.eqb a b.

Definition in_charset (ignorecase : bool) (cs : charset) (c : ascii) : bool :=
  let '(CharSet negate members) := cs in
  xorb negate (existsb (char_eq ignorecase c) members).

(** [\w] *)
Definition is_word (c : ascii) : bool := isword c.

Definition word_before (prev : option ascii) : bool :=
  match prev with Some c => is_word c | None => false end.

Definition word_after (s : string) : bool :=
  match s with String c _ => is_word c | EmptyString => false end.

(** A continuation receives the character before the current position,
    the rest of the text and the number of characters consumed. *)
Definition cont := option ascii -> string -> nat -> option nat.

(** One or more characters of [cs], as many as possible first. *)
Fixpoint match_plus (ignorecase : bool) (cs : charset) (k : cont)
    (s : string) (n : nat) : option nat :=
  match s with
  | String c s' =>
      if in_charset ignorecase cs c then
        match match_plus ignorecase cs k s' (S n) with
        | Some e => Some e
        | None => k (Some c) s' (S n)
        end
      else None
  | EmptyString => None
  end.

Fixpoint rmatch (ignorecase : bool) (r : regex) (k : cont)
    (prev : option ascii) (s : string) (n : nat) : option nat :=
  match r with
  | Eps => k prev s n
  | Lit c =>
      match s with
      | String d s' =>
          if char_eq ignorecase c d then k (Some d) s' (S n) else None
      | EmptyString => None
      end
  | Boundary =>
      if xorb (word_before prev) (word_after s) then k prev s n else None
  | In cs =>
      match s with
      | String d s' =>
          if in_charset ignorecase cs d then k (Some d) s' (S n) else None
      | EmptyString => None
      end
  | InPlus cs => match_plus ignorecase cs k s n
  | Seq r1 r2 =>
      rmatch ignorecase r1 (fun p t m => rmatch ignorecase r2 k p t m) prev s n
  | Group r1 => rmatch ignorecase r1 k prev s n
  end.

(** Reading the text [k] off the front of [s]: the last character read
    (or [prev] when [k] is empty) and what is left of [s]. *)
Fixpoint after (k : string) (prev : option ascii) (s : string)
    : option (option ascii * string) :=
  match k with
  | EmptyString => Some (prev, s)
  | String c k' =>
      match s with
      | String d s' => if Ascii.eqb c d then after k' (Some d) s' else None
      | EmptyString => None
      end
  end.

(** The length of the match that starts at the current position. *)
Definition match_here (ignorecase : bool) (r : regex)
    (prev : option ascii) (s : string) : option nat :=
  rmatch ignorecase r (fun _ _ n => Some n) prev s O.

(** A match object, reduced to [(m.start(), m.end())]. *)
Definition Match : Type := Z * Z.

(** The scan of [finditer]: leftmost matches, none overlapping. [skip] is
    the number of characters of the last match still to be passed. *)
Fixpoint scan (ignorecase : bool) (r : regex) (prev : option ascii)
    (s : string) (pos : Z) (skip : nat) : list Match :=
  match skip with
  | S k =>
      match s with
      | String c s' => scan ignorecase r (Some c) s' (pos + 1) k
      | EmptyString => []
      end
  | O =>
      match match_here ignorecase r prev s with
      | Some n =>
          (pos, pos + Z.of_nat n) ::
          match s with
          | String c s' => scan ignorecase r (Some c) s' (pos + 1) (n - 1)
          | EmptyString => []
          end
      | None =>
          match s with
          | String c s' => scan ignorecase r (Some c) s' (pos + 1) O
          | EmptyString => []
          end
      end
  end.

(** [list(re.finditer(pattern, text, flags))] with [flags] either 0 or
    [re.IGNORECASE]. *)
Definition finditer (pattern text : string) (ignorecase : bool)
    : option (list Match) :=
  match compile pattern with
  | Some r => Some (scan ignorecase r None text 0 O)
  | None => None
  end.

End Re.

(* ===================================================================== *)
(** ** Exceptions *)
(* ===================================================================== *)

Inductive exn :=
| ReError          (* re.error: the pattern does not compile *)
| AttributeError   (* an attribute looked up on None *)
| PackageError     (* the file is not a readable package *)
| OSError          (* the file system refuses the operation *)
| ValueError       (* a value that the callee does not take *)
| IndexError.      (* an index out of range *)

Inductive result (A : Type) :=
| Ok (a : A)
| Raise (e : exn).

Arguments Ok {A} a.
Arguments Raise {A} e.

#[global] Instance result_ret : MRet result := fun _ a => Ok a.

#[global] Instance result_bind : MBind result := fun _ _ f m =>
  match m with
  | Ok a => f a
  | Raise e => Raise e
  end.

(* ===================================================================== *)
(** ** The substitution engine: the body of [replace_text] before the
       traversal *)
(* ===================================================================== *)

Module Engine.
Import PyStr.

(** A font is an opaque style handle. *)
Definition Font : Type := nat.
Bind Scope nat_scope with Font.

(** A python-pptx run is a proxy of an [a:r] element. [attached] tells
    whether the element still has a parent: [run._r.getparent()] is
    [None] once the element has been removed from its paragraph. *)
Record Run := mkRun {
  text : string;
  font : Font;
  attached : bool
}.

(** The characters that the setter of [run.text] does not store as they
    are: 0x00..0x08 and 0x0B..0x1F (TAB and LF are kept). *)
Definition is_control (c : ascii) : bool := between 0 8 c || between 11 31 c.

(** One digit of ["%X"]. *)
Definition hex_digit (n : N) : ascii :=
  if (n <? 10)%N then ascii_of_N (48 + n) else ascii_of_N (55 + n).

(** ["_x%04X_" % ord(c)] for a character below 256. *)
Definition escaped (c : ascii) : string :=
  "_x00" +:+ String (hex_digit (code c / 16)) (String (hex_digit (code c mod 16)) "_").

(** The [_escape] of python-pptx's run element. *)
Fixpoint xml_escape (t : string) : string :=
  match t with
  | EmptyString => EmptyString
  | String c t' =>
      if is_control c then escaped c +:+ xml_escape t'
      else String c (xml_escape t')
  end.

(** [run.text = t]: the text is stored with its control characters
    escaped. *)
Definition set_text (run : Run) (t : string) : Run :=
  mkRun (xml_escape t) (font run) (attached run).

(** [run._r.getparent().remove(run._r)] *)
Definition remove (run : Run) : result Run :=
  if attached run then Ok (mkRun (text run) (font run) false)
  else Raise AttributeError.

(** A key or a value of [replace_dict]: a [str] or something else. *)
Inductive PyVal :=
| PStr (s : string)
| PInt (n : Z)
| PNone.

Definition Dict : Type := list (PyVal * PyVal).

Definition placeholder_patterns : list (string * (string -> string)) :=
  [ ("\{\{([^}]+)\}\}", fun x => "{{" +:+ x +:+ "}}");
    ("\<([^>]+)\>",     fun x => "<" +:+ x +:+ ">");
    ("\[([^\]]+)\]",    fun x => "[" +:+ x +:+ "]") ].

(** The list [patterns] built for one key: the plain pattern, then one
    entry per placeholder pattern. *)
Definition patterns (old_text : string) : list (string * string) :=
  (Re.escape old_text, old_text) ::
  map (fun '(pattern, format_text) =>
         (replace pattern "[^}]+" (Re.escape old_text), format_text old_text))
      placeholder_patterns.

Definition delimiters : list string := ["<"; "{"; "["; ">"; "}"; "]"].

(** The pattern that is searched for: the plain one gets word boundaries
    under [whole_word]. *)
Definition bounded (whole_word : bool) (old_text pattern original_text : string)
    : string :=
  if whole_word && String.eqb original_text old_text
     && negb (existsb (fun c => startswith original_text c
                                || endswith original_text c) delimiters)
  then "\b" +:+ pattern +:+ "\b"
  else pattern.

(** The inner loop over [matches] for one run: every match that overlaps
    the run appends the run text with the overlap replaced. *)
Definition overlay (matches : list Re.Match) (new_text_value run_text : string)
    (run_start run_end : Z) : string :=
  fold_left
    (fun new_run_text '(match_start, match_end) =>
       if (match_start >=? run_end) || (match_end <=? run_start)
       then new_run_text
       else
         let rel_start := Z.max 0 (match_start - run_start) in
         let rel_end := Z.min (len run_text) (match_end - run_start) in
         new_run_text +:+ (slice_to run_text rel_start +:+ new_text_value
                           +:+ slice_from run_text rel_end))
    matches "".

(** The loop that fills [new_runs_text]. *)
Fixpoint new_runs_text (full_text : string) (matches : list Re.Match)
    (new_text_value : string) (runs : list Run) (current_pos : Z)
    : list (string * Font) :=
  match runs with
  | [] => []
  | run :: rest =>
      let run_text := text run in
      let run_start := find full_text run_text current_pos in
      if run_start =? -1 then
        (run_text, font run)
        :: new_runs_text full_text matches new_text_value rest current_pos
      else
        let run_end := run_start + len run_text in
        let new_run_text :=
          overlay matches new_text_value run_text run_start run_end in
        let new_run_text :=
          if is_empty new_run_text then run_text else new_run_text in
        (new_run_text, font run)
        :: new_runs_text full_text matches new_text_value rest run_end
  end.

(** "Update runs" *)
Definition update_runs (runs : list Run) (new_text : list (string * Font))
    : list Run :=
  imap (fun i run =>
          match new_text !! i with
          | Some (t, _) => set_text run t
          | None => set_text run ""
          end) runs.

(** "Remove empty runs": [runs[::-1]] visits the last run first. *)
Fixpoint remove_empty_runs (runs : list Run) : result (list Run) :=
  match runs with
  | [] => Ok []
  | run :: rest =>
      rest' ← remove_empty_runs rest;
      run' ← (if is_empty (text run) then remove run else Ok run);
      Ok (run' :: rest')
  end.

Record state := mkState {
  st_runs : list Run;
  updated : bool;
  total_count : Z
}.

Section replace_in_text.
Variable full_text : string.
Variables replace_all match_case whole_word : bool.

(** [list(re.finditer(pattern, full_text, flags=flags))] *)
Definition find_matches (pattern : string) : result (list Re.Match) :=
  match Re.finditer pattern full_text (negb match_case) with
  | Some matches => Ok matches
  | None => Raise ReError
  end.

(** One rewrite of the runs for the matches of one pattern. *)
Definition rewrite (matches : list Re.Match) (new_text_value : string)
    (runs : list Run) : result (list Run) :=
  remove_empty_runs
    (update_runs runs (new_runs_text full_text matches new_text_value runs 0)).

(** [for pattern, original_text in patterns: ...] *)
Fixpoint for_patterns (old_text new_text_value : string)
    (ps : list (string * string)) (st : state) : result state :=
  match ps with
  | [] => Ok st
  | (pattern, original_text) :: rest =>
      let pattern := bounded whole_word old_text pattern original_text in
      matches ← find_matches pattern;
      match matches with
      | [] => for_patterns old_text new_text_value rest st
      | _ :: _ =>
          let '(matches, count) :=
            if replace_all then (matches, Z.of_nat (length matches))
            else (take 1 matches,
                  match take 1 matches with [] => 0 | _ :: _ => 1 end) in
          if count =? 0 then for_patterns old_text new_text_value rest st
          else
            runs' ← rewrite matches new_text_value (st_runs st);
            let st' := mkState runs' true (total_count st + count) in
            if negb replace_all then Ok st'
            else for_patterns old_text new_text_value rest st'
      end
  end.

(** [for old_text, new_text_value in replace_dict.items(): ...] *)
Fixpoint for_items (items : Dict) (st : state) : result state :=
  match items with
  | [] => Ok st
  | (PStr old_text, PStr new_text_value) :: rest =>
      let old_text := strip old_text in
      if is_empty old_text then for_items rest st
      else
        st' ← for_patterns old_text new_text_value (patterns old_text) st;
        for_items rest st'
  | _ :: rest => for_items rest st
  end.

(** The helper returns [(updated, total_count)]; the runs it was given
    are mutated, and are returned here next to the pair. *)
Definition replace_in_text (runs : list Run) (replace_dict : Dict)
    : result (list Run * (bool * Z)) :=
  st ← for_items replace_dict (mkState runs false 0);
  Ok (st_runs st, (updated st, total_count st)).

End replace_in_text.

(** *** Counting matches

    What the statements about [total_count] are measured against: the
    number of matches of every searched pattern of every usable key in a
    text. *)

Definition sumZ (l : list Z) : Z := foldr Z.add 0 l.

(** The patterns that are searched for one key, boundaries applied. *)
Definition searched (whole_word : bool) (old_text : string) : list string :=
  map (fun '(pattern, original_text) =>
         bounded whole_word old_text pattern original_text)
      (patterns old_text).

Definition match_count (match_case : bool) (full_text pattern : string) : Z :=
  match Re.finditer pattern full_text (negb match_case) with
  | Some matches => Z.of_nat (length matches)
  | None => 0
  end.

Definition key_count (match_case whole_word : bool) (full_text : string)
    (item : PyVal * PyVal) : Z :=
  match item with
  | (PStr old_text, PStr _) =>
      let old_text := strip old_text in
      if is_empty old_text then 0
      else sumZ (map (match_count match_case full_text)
                     (searched whole_word old_text))
  | _ => 0
  end.

Definition text_count (match_case whole_word : bool) (full_text : string)
    (replace_dict : Dict) : Z :=
  sumZ (map (key_count match_case whole_word full_text) replace_dict).

(** A run that is in its paragraph and has some text. *)
Definition live (r : Run) : Prop := attached r = true /\ text r <> "".

End Engine.

(* ===================================================================== *)
(** ** The document walker: [replace_text] *)
(* ===================================================================== *)

Module Walker.
Import PyStr Engine.

(** *** The presentation as python-pptx shows it *)

Record Fragment := mkFragment { f_text : string; f_font : Font }.

Definition Paragraph : Type := list Fragment.

Record TextFrame := mkTextFrame { paragraphs : list Paragraph }.

(** [title_text_frame] is [None] when [chart_title.has_text_frame] is
    false; [chart_title] is [None] when [chart.has_title] is false. *)
Record ChartTitle := mkChartTitle { title_text_frame : option TextFrame }.
Record Chart := mkChart { chart_title : option ChartTitle }.

(** [text_frame] is [None] when [shape.has_text_frame] is false, [chart]
    is [None] when [shape.has_chart] is false. *)
Record Shape := mkShape {
  text_frame : option TextFrame;
  chart : option Chart
}.

Record Slide := mkSlide { shapes : list Shape }.
Record Presentation := mkPresentation { slides : list Slide }.

(** [paragraph.runs]: fresh proxies, all of them children of the
    paragraph. *)
Definition runs (p : Paragraph) : list Run :=
  map (fun f => mkRun (f_text f) (f_font f) true) p.

(** What the paragraph holds once the proxies have been mutated. *)
Definition fragments (rs : list Run) : Paragraph :=
  map (fun r => mkFragment (text r) (font r)) (filter (fun r => attached r = true) rs).

(** *** The file system as [replace_text] sees it *)

(** A [pathlib.Path]: where the file is, and the final path component. *)
Record Path := mkPath { location : string; name : string }.

(** [content] is [None] for a file that is not a readable package. *)
Record File := mkFile {
  content : option Presentation;
  writable : bool
}.

Inductive event :=
| Opened (loc : string)
| Saved (loc : string).

Record World := mkWorld {
  disk : gmap string File;
  trace : list event
}.

(** [name.rfind(c)] *)
Fixpoint rfind (s : string) (c : ascii) : Z :=
  match s with
  | EmptyString => -1
  | String d s' =>
      let r := rfind s' c in
      if r >=? 0 then r + 1 else if Ascii.eqb d c then 0 else -1
  end.

(** [PurePath.suffix] *)
Definition suffix (p : Path) : string :=
  let i := rfind (name p) "." in
  if (0 <? i) && (i <? len (name p) - 1) then slice_from (name p) i else "".

(** The I/O monad of the body of [replace_text]: a world, and a result or
    an exception. *)
Definition IO (A : Type) : Type := World -> result A * World.

#[local] Instance IO_ret : MRet IO := fun _ a w => (Ok a, w).

#[local] Instance IO_bind : MBind IO := fun _ _ f m w =>
  match m w with
  | (Ok a, w') => f a w'
  | (Raise e, w') => (Raise e, w')
  end.

Definition lift {A} (r : result A) : IO A := fun w => (r, w).

(** [file_path.exists()] *)
Definition path_exists (p : Path) : IO bool :=
  fun w => (Ok (bool_decide (is_Some (disk w !! location p))), w).

(** [Presentation(file_path)] *)
Definition load (p : Path) : IO Presentation :=
  fun w =>
    let w' := mkWorld (disk w) (trace w ++ [Opened (location p)]) in
    match disk w !! location p with
    | Some (mkFile (Some pres) _) => (Ok pres, w')
    | Some (mkFile None _) => (Raise PackageError, w')
    | None => (Raise OSError, w')
    end.

(** [presentation.save(file_path)] *)
Definition save (pres : Presentation) (p : Path) : IO unit :=
  fun w =>
    match disk w !! location p with
    | Some (mkFile _ false) => (Raise OSError, w)
    | _ =>
        (Ok tt,
         mkWorld (<[location p := mkFile (Some pres) true]> (disk w))
                 (trace w ++ [Saved (location p)]))
    end.

(** *** The traversal *)

(** A loop whose body may [return]: the body yields the element as it
    leaves it, the running total and whether it returned. *)
Fixpoint for_each {A} (visit : A -> Z -> result (A * Z * bool))
    (xs : list A) (total : Z) : result (list A * Z * bool) :=
  match xs with
  | [] => Ok ([], total, false)
  | x :: rest =>
      '(x', total, returned) ← visit x total;
      if (returned : bool) then Ok (x' :: rest, total, true)
      else
        '(rest', total, returned) ← for_each visit rest total;
        Ok (x' :: rest', total, returned)
  end.

Section traversal.
Variable replace_dict : Dict.
Variables replace_all match_case whole_word : bool.

Definition visit_paragraph (p : Paragraph) (total_replacements : Z)
    : result (Paragraph * Z * bool) :=
  match p with
  | [] => Ok (p, total_replacements, false)
  | _ :: _ =>
      let rs := runs p in
      let full_text := join (map text rs) in
      '(rs', (updated, count)) ←
        replace_in_text full_text replace_all match_case whole_word
                        rs replace_dict;
      let total_replacements := total_replacements + count in
      Ok (fragments rs', total_replacements,
          updated && negb replace_all && (total_replacements >? 0))
  end.

Definition visit_text_frame (tf : TextFrame) (total : Z)
    : result (TextFrame * Z * bool) :=
  '(ps, total, returned) ← for_each visit_paragraph (paragraphs tf) total;
  Ok (mkTextFrame ps, total, returned).

Definition visit_optional {A} (visit : A -> Z -> result (A * Z * bool))
    (o : option A) (total : Z) : result (option A * Z * bool) :=
  match o with
  | Some a => '(a', total, returned) ← visit a total; Ok (Some a', total, returned)
  | None => Ok (None, total, false)
  end.

Definition visit_chart (c : Chart) (total : Z) : result (Chart * Z * bool) :=
  '(t, total, returned) ←
    visit_optional
      (fun t total =>
         '(tf, total, returned) ←
           visit_optional visit_text_frame (title_text_frame t) total;
         Ok (mkChartTitle tf, total, returned))
      (chart_title c) total;
  Ok (mkChart t, total, returned).

Definition visit_shape (shape : Shape) (total : Z)
    : result (Shape * Z * bool) :=
  '(tf, total, returned) ←
    visit_optional visit_text_frame (text_frame shape) total;
  if (returned : bool) then Ok (mkShape tf (chart shape), total, true)
  else
    '(c, total, returned) ← visit_optional visit_chart (chart shape) total;
    Ok (mkShape tf c, total, returned).

Definition visit_slide (slide : Slide) (total : Z)
    : result (Slide * Z * bool) :=
  '(ss, total, returned) ← for_each visit_shape (shapes slide) total;
  Ok (mkSlide ss, total, returned).

Definition walk (presentation : Presentation)
    : result (Presentation * Z * bool) :=
  '(ss, total, returned) ← for_each visit_slide (slides presentation) 0;
  Ok (mkPresentation ss, total, returned).

(** The [try] block of [replace_text]. *)
Definition replace_text_body (file_path : Path) : IO (bool * Z) :=
  found ← path_exists file_path;
  if negb found
     || negb (bool_decide (lower (suffix file_path) ∈ [".pptx"; ".ppt"]))
  then mret (false, 0)
  else
    match replace_dict with
    | [] => mret (false, 0)
    | _ :: _ =>
        presentation ← load file_path;
        '(presentation, total_replacements, returned) ←
          lift (walk presentation);
        if (returned : bool) then
          _ ← save presentation file_path;
          mret (true, total_replacements)
        else
          _ ← save presentation file_path;
          mret (true, total_replacements)
    end.

End traversal.

(** [replace_text]: any exception becomes [(False, 0)]. *)
Definition replace_text (file_path : Path) (replace_dict : Dict)
    (replace_all match_case whole_word : bool) (w : World)
    : (bool * Z) * World :=
  match replace_text_body replace_dict replace_all match_case whole_word
                          file_path w with
  | (Ok r, w') => (r, w')
  | (Raise _, w') => ((false, 0), w')
  end.

(** *** The paragraphs of a presentation, in the order of the traversal *)

Definition frame_paragraphs (tf : option TextFrame) : list Paragraph :=
  match tf with Some tf => paragraphs tf | None => [] end.

Definition chart_paragraphs (c : option Chart) : list Paragraph :=
  match c with
  | Some (mkChart (Some t)) => frame_paragraphs (title_text_frame t)
  | _ => []
  end.

Definition shape_paragraphs (shape : Shape) : list Paragraph :=
  frame_paragraphs (text_frame shape) ++ chart_paragraphs (chart shape).

Definition slide_paragraphs (slide : Slide) : list Paragraph :=
  shapes slide ≫= shape_paragraphs.

Definition all_paragraphs (presentation : Presentation) : list Paragraph :=
  slides presentation ≫= slide_paragraphs.

(** The concatenated text of a paragraph. *)
Definition full_text_of (p : Paragraph) : string := join (map f_text p).

(** The matches counted in one paragraph; a paragraph without runs is
    skipped. *)
Definition paragraph_count (replace_dict : Dict) (match_case whole_word : bool)
    (p : Paragraph) : Z :=
  match p with
  | [] => 0
  | _ :: _ => text_count match_case whole_word (full_text_of p) replace_dict
  end.

Definition match_total (replace_dict : Dict) (match_case whole_word : bool)
    (presentation : Presentation) : Z :=
  sumZ (map (paragraph_count replace_dict match_case whole_word)
            (all_paragraphs presentation)).

(** No run of the paragraph has empty text. *)
Definition no_blank_run (p : Paragraph) : Prop :=
  Forall (fun f => f_text f <> "") p.

Definition valid_suffix (file_path : Path) : Prop :=
  lower (suffix file_path) ∈ [".pptx"; ".ppt"].

End Walker.

(* ===================================================================== *)
(** ** The package surgeon *)
(* ===================================================================== *)

Module Surgeon.
Import PyStr.

Definition bytes : Type := list Byte.byte.

Definition ZIP_STORED : Z := 0.
Definition ZIP_DEFLATED : Z := 8.

(** [(year, month, day, hour, minute, second)] *)
Definition DateTime : Type := Z * Z * Z * Z * Z * Z.

Definition ZIP_LZMA : Z := 14.

(** The entry-level metadata of a [zipfile.ZipInfo]: the name, the time
    stamp, the compression method, the general-purpose flag bits, the
    external attributes, the comment and the extra field. *)
Record ZipInfo := mkZipInfo {
  filename : string;
  date_time : DateTime;
  compress_type : Z;
  flag_bits : Z;
  external_attr : Z;
  comment : bytes;
  extra : bytes
}.

(** A member of an archive. [data] is [None] when the stored stream
    cannot be read back ([read] raises). *)
Record Member := mkMember {
  info : ZipInfo;
  data : option bytes
}.

(** An archive as [zipfile] reads it: the members of the central
    directory, in order. The names are as [infolist] gives them, which
    is how they are written back. *)
Definition Archive : Type := list Member.

(** What a file holds: an archive, other bytes, or the leading part of
    what a copy that broke off was writing. *)
Inductive FileContent :=
| Zip (a : Archive)
| Blob (b : bytes)
| Partial (c : FileContent).

(** The files; the paths at which the file that is there cannot be
    opened for writing; and the paths at which a write over the file that
    is there, once begun, breaks off before the end (the volume fills up,
    the device fails). Both are about writing over a file that exists:
    the temporary file that [replace_embedded_excel_files] makes for
    itself is taken to be written in full. *)
Record FS := mkFS {
  files : gmap string FileContent;
  locked : gset string;
  breaks : gset string
}.

(** [zipfile.ZipFile(path, 'r')]; a file that is cut short has lost the
    central directory at its end. *)
Definition open_zip (fs : FS) (path : string) : result Archive :=
  match files fs !! path with
  | Some (Zip a) => Ok a
  | Some (Blob _) => Raise PackageError
  | Some (Partial _) => Raise PackageError
  | None => Raise OSError
  end.

(** [zip_file.infolist()] and [zip_file.namelist()] *)
Definition infolist (a : Archive) : list ZipInfo := map info a.
Definition namelist (a : Archive) : list string := map filename (infolist a).

(** [zip_file.read(name)]: the name is looked up in [NameToInfo], where
    the last member of that name wins. *)
Definition read (a : Archive) (name : string) : result bytes :=
  match last (filter (fun m => filename (info m) = name) a) with
  | Some m =>
      match data m with
      | Some d => Ok d
      | None => Raise PackageError
      end
  | None => Raise OSError
  end.

Definition is_embedded_excel (f : string) : bool :=
  startswith f "ppt/embeddings/" && endswith f ".xlsx".

Definition get_embedded_excel_paths (fs : FS) (pptx_path : string)
    : result (list string) :=
  zip_file ← open_zip fs pptx_path;
  Ok (filter (fun f => is_embedded_excel f = true) (namelist zip_file)).

(** The dict comprehension: a later entry of the same name overwrites. *)
Fixpoint read_all (zip_file : Archive) (names : list string)
    (acc : gmap string bytes) : result (gmap string bytes) :=
  match names with
  | [] => Ok acc
  | f :: rest =>
      d ← read zip_file f;
      read_all zip_file rest (<[f := d]> acc)
  end.

Definition extract_embedded_excel_files (fs : FS) (pptx_path : string)
    : result (gmap string bytes) :=
  zip_file ← open_zip fs pptx_path;
  read_all zip_file
    (filter (fun f => is_embedded_excel f = true) (namelist zip_file)) ∅.

(** Whether a name can be encoded as ASCII. *)
Fixpoint isascii (s : string) : bool :=
  match s with
  | EmptyString => true
  | String c s' => between 0 127 c && isascii s'
  end.

Definition year_of (t : DateTime) : Z := t.1.1.1.1.1.

(** A time stamp as an archive holds it: the seconds are stored halved
    ([dt[5] // 2] in the header). *)
Definition dos_time (t : DateTime) : DateTime :=
  let '(year, month, day, hour, minute, second) := t in
  (year, month, day, hour, minute, 2 * (second / 2)).

(** What is read back of a [ZipInfo] that has been written to a
    seekable file in mode ['w']: opening the member for writing resets
    the flag bits (bit 1 is set again for LZMA) and replaces external
    attributes of 0 by 0o600 << 16; the header marks a name that is not
    ASCII with bit 11 and holds the time stamp to two seconds. *)
Definition stored (zinfo : ZipInfo) : ZipInfo :=
  mkZipInfo (filename zinfo) (dos_time (date_time zinfo)) (compress_type zinfo)
    (Z.lor (if compress_type zinfo =? ZIP_LZMA then 2 else 0)
           (if isascii (filename zinfo) then 0 else 2048))
    (if external_attr zinfo =? 0 then Z.shiftl 384 16 else external_attr zinfo)
    (comment zinfo) (extra zinfo).

Section substitute.
(** The clock, read by [writestr] when it is given a name. *)
Variable now : DateTime.

(** The [ZipInfo] that [writestr] makes for a name: the time of the
    call, the compression of the destination archive. [ZipInfo] refuses
    a year before 1980, the header has no room for one after 2107, and
    [filename[-1]] needs a name that is not empty. *)
Definition fresh_info (name : string) : result ZipInfo :=
  if (year_of now <? 1980) || (2107 <? year_of now) then Raise ValueError
  else if is_empty name then Raise IndexError
  else
    Ok (mkZipInfo name now ZIP_DEFLATED 0
          (if endswith name "/"
           then Z.lor (Z.shiftl 16893 16) 16    (* 0o40775 << 16 | 0x10 *)
           else Z.shiftl 384 16)                (* 0o600 << 16 *)
          [] []).

(** The body of [for item in src_zip.infolist()]; what [dst_zip] gets
    is the member as it will be read back. *)
Definition copy_item (src_zip : Archive) (updated_files : gmap string bytes)
    (item : ZipInfo) : result Member :=
  match updated_files !! filename item with
  | Some new_bytes =>
      zinfo ← fresh_info (filename item);
      Ok (mkMember (stored zinfo) (Some new_bytes))
  | None =>
      d ← read src_zip (filename item);
      Ok (mkMember (stored item) (Some d))
  end.

(** The loop over [src_zip.infolist()]: [written] is what [dst_zip]
    holds so far; the loop stops at the first exception. *)
Fixpoint copy_items (src_zip : Archive) (updated_files : gmap string bytes)
    (items : list ZipInfo) (written : Archive) : result unit * Archive :=
  match items with
  | [] => (Ok tt, written)
  | item :: rest =>
      match copy_item src_zip updated_files item with
      | Ok m => copy_items src_zip updated_files rest (written ++ [m])%list
      | Raise e => (Raise e, written)
      end
  end.

(** The two nested [with] blocks. The destination is opened with mode
    ['w'], which truncates the temporary file; leaving the block closes
    it with the members written so far. *)
Definition rebuild (fs : FS) (pptx_path temp_path : string)
    (updated_files : gmap string bytes) : result unit * FS :=
  match open_zip fs pptx_path with
  | Raise e => (Raise e, fs)
  | Ok src_zip =>
      let '(r, dst_zip) :=
        copy_items src_zip updated_files (infolist src_zip) [] in
      (r, mkFS (<[temp_path := Zip dst_zip]> (files fs)) (locked fs) (breaks fs))
  end.

(** [shutil.move(src, dst)] for a file. [os.rename] does the move in
    one step when nothing is at [dst]; it raises when something is (the
    module only loads on Windows, where a rename does not replace), and
    [shutil.move] then copies [src] over [dst] and unlinks [src]. The
    copy opens [dst] for writing, which raises when [dst] is locked and
    empties it otherwise; a write that breaks off leaves [dst] with the
    leading part of [src] and [src] where it was. *)
Definition move (fs : FS) (src dst : string) : result unit * FS :=
  match files fs !! src with
  | None => (Raise OSError, fs)
  | Some c =>
      match files fs !! dst with
      | None =>
          (Ok tt, mkFS (<[dst := c]> (delete src (files fs)))
                       (locked fs) (breaks fs))
      | Some _ =>
          if bool_decide (dst ∈ locked fs) then (Raise OSError, fs)
          else if bool_decide (dst ∈ breaks fs) then
            (Raise OSError,
             mkFS (<[dst := Partial c]> (files fs)) (locked fs) (breaks fs))
          else
            (Ok tt, mkFS (<[dst := c]> (delete src (files fs)))
                         (locked fs) (breaks fs))
      end
  end.

(** [os.remove(temp_path)] guarded by [os.path.exists(temp_path)] *)
Definition remove_if_exists (fs : FS) (path : string) : FS :=
  mkFS (delete path (files fs)) (locked fs) (breaks fs).

(** [temp_path] is the name that [tempfile.mkstemp] returns; the file
    it creates is empty. *)
Definition replace_embedded_excel_files (temp_path : string) (fs : FS)
    (pptx_path : string) (updated_files : gmap string bytes) : FS :=
  let fs := mkFS (<[temp_path := Blob []]> (files fs)) (locked fs) (breaks fs) in
  match rebuild fs pptx_path temp_path updated_files with
  | (Raise _, fs) => remove_if_exists fs temp_path
  | (Ok _, fs) =>
      match move fs temp_path pptx_path with
      | (Raise _, fs) => remove_if_exists fs temp_path
      | (Ok _, fs) => fs
      end
  end.

End substitute.

End Surgeon.

(* ===================================================================== *)
(** ** Sample inputs *)
(* ===================================================================== *)

Module Examples.
Import Engine Walker Surgeon.

Definition deck_path : Path := mkPath "deck.pptx" "deck.pptx".

(** A presentation of one slide with one text box. *)
Definition deck_of (ps : list Paragraph) : Presentation :=
  mkPresentation [mkSlide [mkShape (Some (mkTextFrame ps)) None]].

Definition world_of (ps : list Paragraph) : World :=
  mkWorld {[ "deck.pptx" := mkFile (Some (deck_of ps)) true ]} [].

Definition saved (ps : list Paragraph) : World :=
  mkWorld {[ "deck.pptx" := mkFile (Some (deck_of ps)) true ]}
          [Opened "deck.pptx"; Saved "deck.pptx"].

Definition acme : Dict := [(PStr "name", PStr "Acme")].

Definition scenario1 : Paragraph :=
  [mkFragment "Hello {{name}}, welcome <name>!" 7].

(** A package with an embedded workbook that is stored uncompressed. *)
Definition workbook : bytes := [Byte.x50; Byte.x4b; Byte.x03; Byte.x04].
Definition slide_xml : bytes := [Byte.x3c; Byte.x70; Byte.x3e].
Definition built : DateTime := (2020, 1, 1, 0, 0, 0).

Definition package : Archive :=
  [ mkMember (mkZipInfo "ppt/embeddings/Sheet1.xlsx" built ZIP_STORED 0 0 [] [])
             (Some workbook);
    mkMember (mkZipInfo "ppt/slides/slide1.xml" built ZIP_DEFLATED 0 0 [] [])
             (Some slide_xml) ].

Definition disk_of (a : Archive) : FS := mkFS {[ "deck.pptx" := Zip a ]} ∅ ∅.

(** The same disk on a volume where a write to the document breaks
    off. *)
Definition breaking_disk_of (a : Archive) : FS :=
  mkFS {[ "deck.pptx" := Zip a ]} ∅ {[ "deck.pptx" ]}.


Definition today : DateTime := (2026, 11, 3, 9, 0, 1).
Definition new_workbook : bytes := [Byte.x50; Byte.x4b; Byte.x05; Byte.x06].

(** The same package with a slide whose stream cannot be read back. *)
Definition damaged : Archive :=
  [ mkMember (mkZipInfo "ppt/embeddings/Sheet1.xlsx" built ZIP_STORED 0 0 [] [])
             (Some workbook);
    mkMember (mkZipInfo "ppt/slides/slide1.xml" built ZIP_DEFLATED 0 0 [] [])
             None ].

End Examples.

(* ===================================================================== *)
(** ** Facts about patterns *)
(* ===================================================================== *)

Module ReFacts.
Import PyStr Re.

Ltac by_char c :=
  destruct c as [[] [] [] [] [] [] [] []]; vm_compute; try discriminate; auto.

Lemma special_after_backslash c cur stack :
  is_special c = true ->
  step (PState MEscape cur stack) c
  = Some (PState MNormal (Lit c :: cur) stack).
Proof. revert cur stack. by_char c. Qed.

Lemma plain_char_is_literal c cur stack :
  is_special c = false ->
  step (PState MNormal cur stack) c
  = Some (PState MNormal (Lit c :: cur) stack).
Proof. revert cur stack. by_char c. Qed.

Lemma append_cons c s r : String c s +:+ r = String c (s +:+ r).
Proof. reflexivity. Qed.

Lemma append_empty_r s : s +:+ "" = s.
Proof. induction s as [|c s IH]; [reflexivity|]. by rewrite append_cons, IH. Qed.

Lemma parse_cons st c s :
  parse st (String c s)
  = match step st c with Some st' => parse st' s | None => None end.
Proof. reflexivity. Qed.

(** An escaped key is read back as the literal characters of the key,
    whatever they are. *)
Lemma parse_escape k : forall cur stack rest,
  parse (PState MNormal cur stack) (escape k +:+ rest)
  = parse (PState MNormal (rev (lits k) ++ cur) stack) rest.
Proof.
  induction k as [|c k IH]; intros cur stack rest; [reflexivity|].
  change (escape (String c k))
    with (if is_special c then String "\" (String c (escape k))
          else String c (escape k)).
  cbn [lits rev].
  destruct (is_special c) eqn:Hc.
  - rewrite !append_cons, parse_cons.
    change (step (PState MNormal cur stack) "\"%char)
      with (Some (PState MEscape cur stack)).
    cbv beta iota.
    rewrite parse_cons, (special_after_backslash _ _ _ Hc).
    rewrite IH, <- app_assoc. reflexivity.
  - rewrite append_cons, parse_cons, (plain_char_is_literal _ _ _ Hc).
    rewrite IH, <- app_assoc. reflexivity.
Qed.

Lemma compile_escape k : compile (escape k) = Some (seq_of (lits k)).
Proof.
  unfold compile. rewrite <- (append_empty_r (escape k)), parse_escape.
  cbn. rewrite app_nil_r, rev_involutive. reflexivity.
Qed.

Lemma compile_bounded_escape k :
  compile ("\b" +:+ escape k +:+ "\b")
  = Some (Seq Boundary (seq_of (lits k ++ [Boundary]))).
Proof.
  unfold compile.
  change (parse (PState MNormal [] []) ("\b" +:+ escape k +:+ "\b"))
    with (parse (PState MNormal [Boundary] []) (escape k +:+ "\b")).
  rewrite parse_escape. cbn.
  rewrite rev_app_distr, rev_involutive. reflexivity.
Qed.

Lemma compile_braces k :
  compile ("\{\{(" +:+ escape k +:+ ")\}\}")
  = Some (Seq (Lit "{") (Seq (Lit "{")
            (Seq (Group (seq_of (lits k))) (Seq (Lit "}") (Seq (Lit "}") Eps))))).
Proof.
  unfold compile.
  change (parse (PState MNormal [] []) ("\{\{(" +:+ escape k +:+ ")\}\}"))
    with (parse (PState MNormal [] [[Lit "{"; Lit "{"]])
                (escape k +:+ ")\}\}")).
  rewrite parse_escape. cbn. rewrite app_nil_r, rev_involutive. reflexivity.
Qed.

(** *** Literal patterns match their text and nothing else *)

Lemma rmatch_lits k : forall K prev s n,
  rmatch false (seq_of (lits k)) K prev s n
  = match after k prev s with
    | Some (p, rest) => K p rest (n + String.length k)%nat
    | None => None
    end.
Proof.
  induction k as [|c k IH]; intros K prev s n.
  - cbn. by rewrite Nat.add_0_r.
  - cbn [lits seq_of rmatch after]. destruct s as [|d s]; [reflexivity|].
    unfold char_eq. destruct (Ascii.eqb c d); [|reflexivity].
    rewrite IH. destruct (after k (Some d) s) as [[p rest]|]; [|reflexivity].
    cbn [String.length]. by rewrite Nat.add_succ_r.
Qed.

Lemma after_prefix k : forall prev s,
  is_Some (after k prev s) <-> String.prefix k s = true.
Proof.
  induction k as [|c k IH]; intros prev s.
  - cbn. destruct s; split; eauto.
  - destruct s as [|d s]; cbn [after String.prefix].
    + split; [by intros [? ?] | discriminate].
    + destruct (Ascii.eqb_spec c d) as [-> | Hne].
      * destruct (ascii_dec d d); [apply IH | done].
      * destruct (ascii_dec c d); [done|]. split; [by intros [? ?] | discriminate].
Qed.

(** The pattern that [re.escape] makes of a key matches at a position
    exactly when the text there starts with the key, character by
    character, and the match is the key's length. *)
Lemma escaped_key_is_literal k prev s :
  exists r, compile (escape k) = Some r
  /\ match_here false r prev s
     = if String.prefix k s then Some (String.length k) else None.
Proof.
  exists (seq_of (lits k)). split; [apply compile_escape|].
  unfold match_here. rewrite rmatch_lits.
  destruct (String.prefix k s) eqn:E.
  - apply after_prefix with (prev := prev) in E as [[p rest] ->]. reflexivity.
  - destruct (after k prev s) as [[p rest]|] eqn:Ha; [|reflexivity].
    assert (is_Some (after k prev s)) as Hs by eauto.
    apply after_prefix in Hs. congruence.
Qed.

Lemma length_append a b :
  String.length (a +:+ b) = (String.length a + String.length b)%nat.
Proof. induction a as [|c a IH]; [reflexivity|]. rewrite append_cons. cbn. lia. Qed.

(** A key wrapped in delimiters is never the key itself. *)
Lemma wrapped_differs (pre post k : string) :
  pre <> "" -> String.eqb (pre +:+ k +:+ post) k = false.
Proof.
  intros Hpre. apply String.eqb_neq. intros E.
  apply (f_equal String.length) in E. rewrite !length_append in E.
  destruct pre; [done|]. cbn in E. lia.
Qed.

End ReFacts.

(* ===================================================================== *)
(** ** Facts about the substitution engine *)
(* ===================================================================== *)

Module EngineFacts.
Import PyStr Re Engine ReFacts.

(** The four patterns of a key, as text. *)
Lemma patterns_unfold old_text :
  patterns old_text =
  [ (escape old_text, old_text);
    ("\{\{(" +:+ escape old_text +:+ ")\}\}", "{{" +:+ old_text +:+ "}}");
    ("\<([^>]+)\>", "<" +:+ old_text +:+ ">");
    ("\[([^\]]+)\]", "[" +:+ old_text +:+ "]") ].
Proof. reflexivity. Qed.

(** Word boundaries are only ever put around the plain pattern. *)
Lemma searched_unfold whole_word old_text :
  searched whole_word old_text =
  [ bounded whole_word old_text (escape old_text) old_text;
    "\{\{(" +:+ escape old_text +:+ ")\}\}";
    "\<([^>]+)\>";
    "\[([^\]]+)\]" ].
Proof.
  unfold searched. rewrite patterns_unfold. cbn [map].
  unfold bounded at 2 3 4.
  rewrite !wrapped_differs by discriminate.
  rewrite !andb_false_r. reflexivity.
Qed.

(** Every pattern searched for a key compiles. *)
Lemma searched_compile whole_word old_text :
  Forall (fun pattern => is_Some (compile pattern)) (searched whole_word old_text).
Proof.
  rewrite searched_unfold. repeat constructor.
  - unfold bounded. destruct (_ && _ && _).
    + rewrite compile_bounded_escape. eauto.
    + rewrite compile_escape. eauto.
  - rewrite compile_braces. eauto.
  - vm_compute. eauto.
  - vm_compute. eauto.
Qed.

(** *** Rewriting keeps live runs live *)

Lemma new_runs_text_length full_text matches v runs : forall pos,
  length (new_runs_text full_text matches v runs pos) = length runs.
Proof.
  induction runs as [|run rest IH]; intros pos; [reflexivity|].
  cbn [new_runs_text]. destruct (_ =? -1); cbn [length]; by rewrite IH.
Qed.

Lemma new_runs_text_nonempty full_text matches v runs : forall pos,
  Forall (fun r => text r <> "") runs ->
  Forall (fun nt => nt.1 <> "") (new_runs_text full_text matches v runs pos).
Proof.
  induction runs as [|run rest IH]; intros pos Hne; [constructor|].
  inversion Hne as [|? ? Hrun Hrest]; subst.
  cbn [new_runs_text]. destruct (_ =? -1).
  - constructor; [exact Hrun | by apply IH].
  - constructor; [| by apply IH]. cbn [fst].
    destruct (overlay _ _ _ _ _); cbn [is_empty]; [exact Hrun | discriminate].
Qed.

(** Escaping neither empties a text nor fills an empty one. *)
Lemma xml_escape_empty t : is_empty (xml_escape t) = is_empty t.
Proof.
  destruct t as [|c t]; [reflexivity|]. cbn [xml_escape].
  destruct (is_control c); reflexivity.
Qed.

Lemma xml_escape_nonempty t : t <> "" -> xml_escape t <> "".
Proof.
  intros Ht E. apply (f_equal is_empty) in E. rewrite xml_escape_empty in E.
  by destruct t.
Qed.

Lemma update_runs_zip runs : forall new_text,
  length new_text = length runs ->
  update_runs runs new_text
  = zip_with (fun run nt => set_text run nt.1) runs new_text.
Proof.
  unfold update_runs.
  induction runs as [|run rest IH]; intros [|[t f] new_text] Hlen;
    try discriminate; [reflexivity|].
  rewrite imap_cons. cbn [zip_with lookup list_lookup fst]. f_equal.
  rewrite <- IH by (cbn in Hlen; lia). reflexivity.
Qed.

Lemma remove_empty_runs_live runs :
  Forall live runs -> remove_empty_runs runs = Ok runs.
Proof.
  induction 1 as [|run rest [_ Hne] _ IH]; [reflexivity|].
  cbn [remove_empty_runs]. rewrite IH. cbn.
  destruct (text run); [done | reflexivity].
Qed.

Lemma rewrite_live full_text matches v runs :
  Forall live runs ->
  exists runs', rewrite full_text matches v runs = Ok runs' /\ Forall live runs'.
Proof.
  intros Hlive. unfold rewrite.
  assert (Forall live
            (update_runs runs (new_runs_text full_text matches v runs 0))) as H.
  { rewrite update_runs_zip by apply new_runs_text_length.
    assert (Forall (fun r => text r <> "") runs) as Hne
      by (eapply Forall_impl; [exact Hlive | by intros ? [_ ?]]).
    apply (new_runs_text_nonempty full_text matches v runs 0) in Hne.
    revert Hlive Hne. generalize (new_runs_text full_text matches v runs 0).
    induction runs as [|run rest IH]; intros [|nt l] Hlive Hne; try constructor.
    - inversion Hlive as [|? ? [Ha _] _]; inversion Hne; subst.
      split; [done | by apply xml_escape_nonempty].
    - inversion Hlive; inversion Hne; subst. by apply IH. }
  eexists. split; [by apply remove_empty_runs_live | exact H].
Qed.

(** After a rewrite, no run that is still in the paragraph is blank. *)
Lemma remove_empty_runs_no_blank runs runs' :
  remove_empty_runs runs = Ok runs' ->
  Forall (fun r => attached r = true -> text r <> "") runs'.
Proof.
  revert runs'. induction runs as [|run rest IH]; intros runs' H.
  - inversion H. constructor.
  - cbn [remove_empty_runs] in H.
    destruct (remove_empty_runs rest) as [rest'|] eqn:Hrest; [|discriminate].
    cbn in H. destruct (is_empty (text run)) eqn:Hempty.
    + unfold remove in H. destruct (attached run); [|discriminate].
      inversion H; subst. constructor; [discriminate | by apply IH].
    + inversion H; subst. constructor; [| by apply IH].
      intros _ E. rewrite E in Hempty. discriminate.
Qed.

Lemma rewrite_no_blank full_text matches v runs runs' :
  rewrite full_text matches v runs = Ok runs' ->
  Forall (fun r => attached r = true -> text r <> "") runs'.
Proof. apply remove_empty_runs_no_blank. Qed.

(** *** The loops *)

Lemma bind_ok {A B} (a : A) (f : A -> result B) : (Ok a ≫= f) = f a.
Proof. reflexivity. Qed.

Lemma sumZ_cons x l : sumZ (x :: l) = x + sumZ l.
Proof. reflexivity. Qed.

Lemma sumZ_app l1 l2 : sumZ (l1 ++ l2) = sumZ l1 + sumZ l2.
Proof.
  induction l1 as [|x l1 IH]; [reflexivity|].
  rewrite <- app_comm_cons, !sumZ_cons, IH. lia.
Qed.

Lemma sumZ_map_nonneg {A} (f : A -> Z) l :
  (forall x, 0 <= f x) -> 0 <= sumZ (map f l).
Proof.
  intros Hf. induction l as [|x l IH]; [reflexivity|].
  cbn [map]. rewrite sumZ_cons. specialize (Hf x). lia.
Qed.

Lemma sumZ_map_zero {A} (f : A -> Z) l :
  (forall x, 0 <= f x) -> sumZ (map f l) = 0 -> Forall (fun x => f x = 0) l.
Proof.
  intros Hf. induction l as [|x l IH]; [constructor|].
  cbn [map]. rewrite sumZ_cons. intros E.
  pose proof (Hf x). pose proof (sumZ_map_nonneg f l Hf).
  constructor; [lia | apply IH; lia].
Qed.

Section loops.
Variable full_text : string.
Variables match_case whole_word : bool.

Lemma find_matches_count pattern :
  is_Some (compile pattern) ->
  exists matches,
    find_matches full_text match_case pattern = Ok matches
    /\ match_count match_case full_text pattern = Z.of_nat (length matches).
Proof.
  intros [r Hr]. unfold find_matches, match_count, finditer. rewrite Hr. eauto.
Qed.

Lemma match_count_nonneg pattern :
  0 <= match_count match_case full_text pattern.
Proof. unfold match_count. destruct (finditer _ _ _); lia. Qed.

Lemma match_count_zero pattern :
  is_Some (compile pattern) ->
  match_count match_case full_text pattern = 0 ->
  finditer pattern full_text (negb match_case) = Some [].
Proof.
  intros [r Hr]. unfold match_count, finditer. rewrite Hr.
  destruct (scan _ _ _ _ _ _); [done | cbn; lia].
Qed.

(** Without a match the loop over the patterns does nothing. *)
Lemma for_patterns_no_match replace_all old_text v ps st :
  Forall (fun pattern => finditer pattern full_text (negb match_case) = Some [])
         (map (fun '(pattern, original_text) =>
                 bounded whole_word old_text pattern original_text) ps) ->
  for_patterns full_text replace_all match_case whole_word old_text v ps st
  = Ok st.
Proof.
  induction ps as [|[pattern original_text] ps IH]; [reflexivity|].
  cbn [map]. inversion 1 as [|? ? Hp Hps]; subst.
  cbn [for_patterns]. unfold find_matches. rewrite Hp. by apply IH.
Qed.

(** With [replace_all], every pattern is searched and every match is
    counted, as long as the runs stay live. *)
Lemma for_patterns_all old_text v ps : forall st,
  Forall (fun pattern => is_Some (compile pattern))
         (map (fun '(pattern, original_text) =>
                 bounded whole_word old_text pattern original_text) ps) ->
  Forall live (st_runs st) ->
  exists st',
    for_patterns full_text true match_case whole_word old_text v ps st = Ok st'
    /\ Forall live (st_runs st')
    /\ total_count st'
       = total_count st
         + sumZ (map (match_count match_case full_text)
                  (map (fun '(pattern, original_text) =>
                          bounded whole_word old_text pattern original_text)
                       ps)).
Proof.
  induction ps as [|[pattern original_text] ps IH]; intros st Hc Hlive.
  - exists st. cbn. split_and!; [done | done | lia].
  - cbn [map] in Hc |- *. inversion Hc as [|? ? Hp Hps]; subst.
    destruct (find_matches_count _ Hp) as (matches & Hm & Hn).
    cbn [for_patterns]. rewrite sumZ_cons, Hm, Hn, bind_ok.
    destruct matches as [|m matches].
    + destruct (IH st Hps Hlive) as (st' & Hst & ? & Ht).
      exists st'. split_and!; [done | done |]. rewrite Ht. cbn [length]. lia.
    + cbv beta iota zeta.
      rewrite (proj2 (Z.eqb_neq _ 0)) by (cbn [length]; lia).
      destruct (rewrite_live full_text (m :: matches) v _ Hlive)
        as (runs' & Hr & Hlive').
      rewrite Hr, bind_ok. cbn [negb].
      destruct (IH (mkState runs' true
                      (total_count st + Z.of_nat (length (m :: matches))))
                   Hps Hlive') as (st' & Hst & ? & Ht).
      exists st'. split_and!; [done | done |]. rewrite Ht. cbn [total_count]. lia.
Qed.

Lemma key_count_nonneg item : 0 <= key_count match_case whole_word full_text item.
Proof.
  destruct item as [[k| |] [v| |]]; cbn [key_count]; try lia.
  destruct (is_empty _); [lia|].
  apply sumZ_map_nonneg, match_count_nonneg.
Qed.

Lemma for_items_no_match replace_all dict st :
  text_count match_case whole_word full_text dict = 0 ->
  for_items full_text replace_all match_case whole_word dict st = Ok st.
Proof.
  unfold text_count. intros H.
  apply sumZ_map_zero in H; [| apply key_count_nonneg].
  induction H as [|[k v] dict Hk _ IH]; [reflexivity|].
  destruct k as [k| |], v as [v| |]; cbn [for_items]; try exact IH.
  cbn [key_count] in Hk. destruct (is_empty (strip k)); [exact IH|].
  rewrite for_patterns_no_match; [exact IH|].
  apply sumZ_map_zero in Hk; [| apply match_count_nonneg].
  pose proof (searched_compile whole_word (strip k)) as Hc.
  unfold searched in *.
  induction Hk as [|x l Hx _ IHl]; [constructor|].
  inversion Hc; subst. constructor; [by apply match_count_zero | by apply IHl].
Qed.

Lemma for_items_all dict : forall st,
  Forall live (st_runs st) ->
  exists st',
    for_items full_text true match_case whole_word dict st = Ok st'
    /\ Forall live (st_runs st')
    /\ total_count st'
       = total_count st + text_count match_case whole_word full_text dict.
Proof.
  unfold text_count.
  induction dict as [|[k v] dict IH]; intros st Hlive.
  - exists st. cbn. split_and!; [done | done | lia].
  - cbn [map]. rewrite sumZ_cons.
    assert (forall st0, Forall live (st_runs st0) -> total_count st0 = total_count st ->
              key_count match_case whole_word full_text (k, v) = 0 ->
              exists st', for_items full_text true match_case whole_word dict st0 = Ok st'
                /\ Forall live (st_runs st')
                /\ total_count st' = total_count st
                     + (key_count match_case whole_word full_text (k, v)
                        + sumZ (map (key_count match_case whole_word full_text) dict)))
      as Hskip.
    { intros st0 H0 Ht Hz. destruct (IH st0 H0) as (st' & ? & ? & Hs).
      exists st'. split_and!; [done | done | lia]. }
    destruct k as [k| |], v as [v| |]; cbn [for_items]; try by apply Hskip.
    destruct (is_empty (strip k)) eqn:He.
    { apply Hskip; [done | done |]. cbn [key_count]. by rewrite He. }
    destruct (for_patterns_all (strip k) v (patterns (strip k)) st
                (searched_compile whole_word (strip k)) Hlive)
      as (st1 & H1 & Hl1 & Ht1).
    rewrite H1, bind_ok. destruct (IH st1 Hl1) as (st' & ? & ? & Hs).
    exists st'. split_and!; [done | done |].
    rewrite Hs, Ht1. cbn [key_count]. rewrite He. unfold searched. lia.
Qed.

Lemma replace_in_text_no_match replace_all runs dict :
  text_count match_case whole_word full_text dict = 0 ->
  replace_in_text full_text replace_all match_case whole_word runs dict
  = Ok (runs, (false, 0)).
Proof.
  intros H. unfold replace_in_text. by rewrite for_items_no_match.
Qed.

Lemma replace_in_text_all runs dict :
  Forall live runs ->
  exists runs' u,
    replace_in_text full_text true match_case whole_word runs dict
    = Ok (runs', (u, text_count match_case whole_word full_text dict)).
Proof.
  intros Hlive. unfold replace_in_text.
  destruct (for_items_all dict (mkState runs false 0) Hlive)
    as (st' & -> & _ & Ht).
  rewrite bind_ok, Ht. cbn [total_count]. rewrite Z.add_0_l. eauto.
Qed.

(** *** What a call that returns has counted *)

Lemma for_patterns_count old_text v ps : forall st st',
  Forall (fun pattern => is_Some (compile pattern))
         (map (fun '(pattern, original_text) =>
                 bounded whole_word old_text pattern original_text) ps) ->
  for_patterns full_text true match_case whole_word old_text v ps st = Ok st' ->
  total_count st'
  = total_count st
    + sumZ (map (match_count match_case full_text)
             (map (fun '(pattern, original_text) =>
                     bounded whole_word old_text pattern original_text) ps)).
Proof.
  induction ps as [|[pattern original_text] ps IH]; intros st st' Hc H.
  - injection H as <-. cbn. lia.
  - cbn [map] in Hc |- *. inversion Hc as [|? ? Hp Hps]; subst.
    destruct (find_matches_count _ Hp) as (matches & Hm & Hn).
    cbn [for_patterns] in H. rewrite Hm, bind_ok in H. rewrite sumZ_cons, Hn.
    destruct matches as [|m matches].
    + rewrite (IH _ _ Hps H). cbn [length]. lia.
    + cbv beta iota zeta in H.
      rewrite (proj2 (Z.eqb_neq _ 0)) in H by (cbn [length]; lia).
      destruct (rewrite full_text (m :: matches) v (st_runs st)) as [runs'|];
        [|discriminate].
      rewrite bind_ok in H. cbn [negb] in H.
      rewrite (IH _ _ Hps H). cbn [total_count]. lia.
Qed.

Lemma for_items_count dict : forall st st',
  for_items full_text true match_case whole_word dict st = Ok st' ->
  total_count st'
  = total_count st + text_count match_case whole_word full_text dict.
Proof.
  unfold text_count.
  induction dict as [|[k v] dict IH]; intros st st' H.
  - injection H as <-. cbn. lia.
  - cbn [map]. rewrite sumZ_cons.
    destruct k as [k| |], v as [v| |]; cbn [for_items key_count] in H |- *;
      try (rewrite (IH _ _ H); lia).
    destruct (is_empty (strip k)); [rewrite (IH _ _ H); lia|].
    destruct (for_patterns full_text true match_case whole_word (strip k) v
                (patterns (strip k)) st) as [st1|] eqn:H1; [|discriminate].
    rewrite bind_ok in H. rewrite (IH _ _ H).
    rewrite (for_patterns_count _ _ _ _ _ (searched_compile whole_word (strip k)) H1).
    unfold searched. lia.
Qed.

(** With [replace_all], a call that returns has counted every match in
    the text it was given, however the text is split into runs. *)
Lemma replace_in_text_count runs dict runs' u n :
  replace_in_text full_text true match_case whole_word runs dict
  = Ok (runs', (u, n)) ->
  n = text_count match_case whole_word full_text dict.
Proof.
  unfold replace_in_text. intros H.
  destruct (for_items full_text true match_case whole_word dict
              (mkState runs false 0)) as [st|] eqn:Hst; [|discriminate].
  rewrite bind_ok in H. injection H as _ _ <-.
  rewrite (for_items_count _ _ _ Hst). cbn [total_count]. lia.
Qed.

(** Without [replace_all], one key adds at most one to the count: the
    loop over its patterns stops at the first pattern that matches. *)
Lemma for_patterns_first_only old_text v ps : forall st st',
  for_patterns full_text false match_case whole_word old_text v ps st = Ok st' ->
  total_count st' = total_count st \/ total_count st' = total_count st + 1.
Proof.
  induction ps as [|[pattern original_text] ps IH]; intros st st' H.
  - injection H as <-. by left.
  - cbn [for_patterns] in H.
    destruct (find_matches full_text match_case
                (bounded whole_word old_text pattern original_text))
      as [[|m matches]|]; [by apply IH| |discriminate].
    rewrite bind_ok in H. change (take 1 (m :: matches)) with [m] in H.
    cbv beta iota zeta in H. change (1 =? 0) with false in H.
    destruct (rewrite full_text [m] v (st_runs st)) as [runs'|]; [|discriminate].
    rewrite bind_ok in H. cbn [negb] in H. injection H as <-. by right.
Qed.

End loops.

End EngineFacts.

(* ===================================================================== *)
(** ** Facts about the traversal *)
(* ===================================================================== *)

Module WalkerFacts.
Import PyStr Engine Walker EngineFacts.

Lemma fragments_runs p : fragments (runs p) = p.
Proof.
  unfold fragments, runs. induction p as [|[t f] p IH]; [reflexivity|].
  cbn [map]. rewrite filter_cons_True by reflexivity. cbn [map text font].
  by rewrite IH.
Qed.

Lemma runs_live p : no_blank_run p -> Forall live (runs p).
Proof.
  induction 1 as [|f p Hf _ IH]; [constructor|].
  constructor; [by split | exact IH].
Qed.

(** After a rewrite that returns, the paragraph has no run of empty
    text. *)
Lemma rewritten_paragraph_has_no_blank full_text matches v rs rs' :
  rewrite full_text matches v rs = Ok rs' ->
  no_blank_run (fragments rs').
Proof.
  intros H%rewrite_no_blank. unfold no_blank_run, fragments.
  induction H as [|r rs0 Hr _ IH]; [constructor|].
  destruct (attached r) eqn:Ha.
  - rewrite filter_cons_True by done. constructor; [by apply Hr | exact IH].
  - rewrite filter_cons_False by congruence. exact IH.
Qed.

Lemma text_of_runs p : join (map text (runs p)) = full_text_of p.
Proof. unfold full_text_of, runs. by rewrite map_map. Qed.

Lemma bind_singletons {A} (l : list A) : l ≫= (fun x => [x]) = l.
Proof. induction l as [|x l IH]; [reflexivity|]. by rewrite bind_cons, IH. Qed.

Lemma sumZ_bind {A B} (c : B -> Z) (f : A -> list B) l :
  sumZ (map c (l ≫= f)) = sumZ (map (fun x => sumZ (map c (f x))) l).
Proof.
  induction l as [|x l IH]; [reflexivity|].
  rewrite bind_cons, map_app, sumZ_app, IH. reflexivity.
Qed.

(** *** From one paragraph to the presentation

    If visiting a paragraph that satisfies [P] never returns early and
    adds [c] to the total, so does every level of the traversal. Under
    [K] the visit moreover leaves what it visits as it was. *)

Section lifting.
Variable replace_dict : Dict.
Variables replace_all match_case whole_word : bool.
Variable P : Paragraph -> Prop.
Variable K : Prop.

Let c := paragraph_count replace_dict match_case whole_word.

Definition visited {A} (visit : A -> Z -> result (A * Z * bool))
    (paras : A -> list Paragraph) (x : A) : Prop :=
  Forall P (paras x) ->
  forall t, exists x',
    visit x t = Ok (x', t + sumZ (map c (paras x)), false) /\ (K -> x' = x).

Hypothesis paragraph_visited : forall p,
  visited (visit_paragraph replace_dict replace_all match_case whole_word)
          (fun p => [p]) p.

Lemma for_each_visited {A} (visit : A -> Z -> result (A * Z * bool)) paras :
  (forall x, visited visit paras x) ->
  forall xs, visited (for_each visit) (fun xs => xs ≫= paras) xs.
Proof.
  intros Hv. induction xs as [|x xs IH]; intros HP t.
  - exists []. split; [|done].
    change (Ok ([], t, false) = Ok (@nil A, t + 0, false)).
    by rewrite Z.add_0_r.
  - rewrite bind_cons in HP |- *. apply Forall_app in HP as [Hx Hxs].
    destruct (Hv x Hx t) as (x' & Ex & Kx).
    destruct (IH Hxs (t + sumZ (map c (paras x)))) as (xs' & Exs & Kxs).
    exists (x' :: xs'). cbn [for_each]. rewrite Ex, bind_ok.
    cbv beta iota. rewrite Exs, bind_ok. cbv beta iota. split.
    + rewrite map_app, sumZ_app. do 3 f_equal. lia.
    + intros k. by rewrite Kx, Kxs.
Qed.

Lemma optional_visited {A} (visit : A -> Z -> result (A * Z * bool)) paras :
  (forall x, visited visit paras x) ->
  forall o, visited (visit_optional visit)
                    (fun o => match o with Some a => paras a | None => [] end) o.
Proof.
  intros Hv [a|] HP t.
  - destruct (Hv a HP t) as (a' & Ea & Ka). exists (Some a').
    cbn [visit_optional]. rewrite Ea, bind_ok. split; [done|].
    intros k. by rewrite Ka.
  - exists None. split; [|done].
    change (Ok (None, t, false) = Ok (@None A, t + 0, false)).
    by rewrite Z.add_0_r.
Qed.

Lemma text_frame_visited tf :
  visited (visit_text_frame replace_dict replace_all match_case whole_word)
          paragraphs tf.
Proof.
  intros HP t.
  destruct (for_each_visited _ _ paragraph_visited (paragraphs tf)) with (t := t)
    as (ps & E & Kp); [by rewrite bind_singletons|].
  rewrite bind_singletons in E.
  exists (mkTextFrame ps). unfold visit_text_frame. rewrite E, bind_ok.
  split; [done|]. intros k. rewrite Kp by done. by destruct tf.
Qed.

Lemma frame_visited o :
  visited (visit_optional
             (visit_text_frame replace_dict replace_all match_case whole_word))
          frame_paragraphs o.
Proof. apply (optional_visited _ _ text_frame_visited). Qed.

Lemma chart_visited o :
  visited (visit_optional
             (visit_chart replace_dict replace_all match_case whole_word))
          chart_paragraphs o.
Proof.
  intros HP t. destruct o as [[[[tf]|]]|]; cbn [chart_paragraphs] in HP |- *.
  - destruct (frame_visited tf HP t) as (tf' & E & Kf).
    exists (Some (mkChart (Some (mkChartTitle tf')))).
    unfold visit_chart.
    cbn [visit_optional chart_title title_text_frame].
    rewrite E. split; [done|]. intros k. by rewrite Kf.
  - exists (Some (mkChart None)). split; [|done].
    change (Ok (Some (mkChart None), t, false)
            = Ok (Some (mkChart None), t + 0, false)).
    by rewrite Z.add_0_r.
  - exists None. split; [|done].
    change (Ok (None, t, false) = Ok (@None Chart, t + 0, false)).
    by rewrite Z.add_0_r.
Qed.

Lemma shape_visited shape :
  visited (visit_shape replace_dict replace_all match_case whole_word)
          shape_paragraphs shape.
Proof.
  intros HP t. unfold shape_paragraphs in *. apply Forall_app in HP as [Hf Hc].
  destruct (frame_visited _ Hf t) as (tf & Ef & Kf).
  destruct (chart_visited _ Hc (t + sumZ (map c (frame_paragraphs (text_frame shape)))))
    as (ch & Ec & Kc).
  exists (mkShape tf ch). unfold visit_shape. rewrite Ef, bind_ok.
  cbv beta iota. rewrite Ec, bind_ok. cbv beta iota. split.
  - rewrite map_app, sumZ_app. do 3 f_equal. lia.
  - intros k. rewrite Kf, Kc by done. by destruct shape.
Qed.

Lemma slide_visited slide :
  visited (visit_slide replace_dict replace_all match_case whole_word)
          slide_paragraphs slide.
Proof.
  intros HP t.
  destruct (for_each_visited _ _ shape_visited (shapes slide) HP t)
    as (ss & E & Ks).
  exists (mkSlide ss). unfold visit_slide. rewrite E, bind_ok.
  split; [done|]. intros k. rewrite Ks by done. by destruct slide.
Qed.

Lemma walk_visited presentation :
  Forall P (all_paragraphs presentation) ->
  exists presentation',
    walk replace_dict replace_all match_case whole_word presentation
    = Ok (presentation',
          match_total replace_dict match_case whole_word presentation, false)
    /\ (K -> presentation' = presentation).
Proof.
  intros HP.
  destruct (for_each_visited _ _ slide_visited (slides presentation) HP 0)
    as (ss & E & Ks).
  exists (mkPresentation ss). unfold walk. rewrite E, bind_ok.
  split; [done|]. intros k. rewrite Ks by done. by destruct presentation.
Qed.

End lifting.

(** *** One paragraph *)

(** With [replace_all], a paragraph without blank runs adds the number of
    its matches and the traversal goes on. *)
Lemma paragraph_visited_all replace_dict match_case whole_word p :
  visited replace_dict match_case whole_word no_blank_run False
          (visit_paragraph replace_dict true match_case whole_word)
          (fun p => [p]) p.
Proof.
  intros HP t. apply Forall_inv in HP.
  cbn [map]. rewrite sumZ_cons, Z.add_0_r.
  destruct p as [|f p].
  - exists []. cbn [visit_paragraph paragraph_count].
    by rewrite Z.add_0_r.
  - destruct (replace_in_text_all (full_text_of (f :: p)) match_case whole_word
                (runs (f :: p)) replace_dict (runs_live _ HP)) as (rs' & u & E).
    exists (fragments rs'). unfold visit_paragraph.
    rewrite text_of_runs, E, bind_ok. cbn [negb paragraph_count].
    by rewrite andb_false_r.
Qed.

(** Whatever [replace_all] is, a paragraph in which nothing matches is
    left as it was and the traversal goes on. *)
Lemma paragraph_visited_no_match replace_dict replace_all match_case whole_word p :
  visited replace_dict match_case whole_word
          (fun p => paragraph_count replace_dict match_case whole_word p = 0) True
          (visit_paragraph replace_dict replace_all match_case whole_word)
          (fun p => [p]) p.
Proof.
  intros HP t. apply Forall_inv in HP.
  cbn [map]. rewrite sumZ_cons, Z.add_0_r, HP, Z.add_0_r.
  exists p. split; [|done]. destruct p as [|f p]; [reflexivity|].
  cbn [paragraph_count] in HP. unfold visit_paragraph.
  rewrite text_of_runs, replace_in_text_no_match, bind_ok by exact HP.
  rewrite fragments_runs, Z.add_0_r. reflexivity.
Qed.

Lemma paragraph_count_nonneg replace_dict match_case whole_word p :
  0 <= paragraph_count replace_dict match_case whole_word p.
Proof.
  destruct p; cbn [paragraph_count]; [lia|].
  apply sumZ_map_nonneg, key_count_nonneg.
Qed.

(** *** The whole call *)

Section call.
Variable file_path : Path.
Variable replace_dict : Dict.
Variables replace_all match_case whole_word : bool.
Variable w : World.

Lemma rejected_missing :
  disk w !! location file_path = None ->
  replace_text file_path replace_dict replace_all match_case whole_word w
  = ((false, 0), w).
Proof.
  intros H. unfold replace_text, replace_text_body, mbind, IO_bind, path_exists.
  rewrite H, bool_decide_false by (by intros [? ?]). reflexivity.
Qed.

Lemma rejected_suffix :
  ~ valid_suffix file_path ->
  replace_text file_path replace_dict replace_all match_case whole_word w
  = ((false, 0), w).
Proof.
  intros H. unfold replace_text, replace_text_body, mbind, IO_bind, path_exists.
  unfold valid_suffix in H. rewrite (bool_decide_false _ H).
  cbn [negb]. rewrite orb_true_r. reflexivity.
Qed.

Lemma rejected_empty :
  replace_dict = [] ->
  replace_text file_path replace_dict replace_all match_case whole_word w
  = ((false, 0), w).
Proof.
  intros ->. unfold replace_text, replace_text_body, mbind, IO_bind, path_exists.
  destruct (_ || _); reflexivity.
Qed.

(** A call that passes the validation, loads the file and walks it
    without an early return saves what the walk left. *)
Lemma accepted presentation presentation' total :
  disk w !! location file_path = Some (mkFile (Some presentation) true) ->
  valid_suffix file_path ->
  replace_dict <> [] ->
  walk replace_dict replace_all match_case whole_word presentation
  = Ok (presentation', total, false) ->
  replace_text file_path replace_dict replace_all match_case whole_word w
  = ((true, total),
     mkWorld (<[location file_path := mkFile (Some presentation') true]> (disk w))
             (trace w ++ [Opened (location file_path);
                          Saved (location file_path)])).
Proof.
  intros Hfile Hsuffix Hdict Hwalk.
  unfold replace_text, replace_text_body, mbind, IO_bind, path_exists.
  rewrite Hfile, bool_decide_true by eauto.
  unfold valid_suffix in Hsuffix. rewrite (bool_decide_true _ Hsuffix).
  cbn [negb orb]. destruct replace_dict as [|item items]; [done|].
  unfold load, lift, save. rewrite Hfile, Hwalk. cbn [disk trace].
  rewrite Hfile. cbn [mret IO_ret]. by rewrite <- app_assoc.
Qed.

End call.

End WalkerFacts.

(* ===================================================================== *)
(** ** Facts about the package surgeon *)
(* ===================================================================== *)

Module SurgeonFacts.
Import PyStr Surgeon.

Section rebuilt.
Variable now : DateTime.
Variable src_zip : Archive.

Lemma fresh_info_ok name zinfo :
  fresh_info now name = Ok zinfo ->
  zinfo = mkZipInfo name now ZIP_DEFLATED 0
            (if endswith name "/" then Z.lor (Z.shiftl 16893 16) 16
             else Z.shiftl 384 16) [] [].
Proof.
  unfold fresh_info. destruct (_ || _); [discriminate|].
  destruct (is_empty name); [discriminate|]. by intros [= <-].
Qed.

Lemma fresh_info_in_range name :
  1980 <= year_of now <= 2107 -> name <> "" ->
  exists zinfo, fresh_info now name = Ok zinfo.
Proof.
  intros Hyear Hname. unfold fresh_info.
  rewrite (proj2 (Z.ltb_ge _ _)), (proj2 (Z.ltb_ge _ _)) by lia.
  destruct name; [done|]. by eexists.
Qed.

Lemma copy_item_name updated_files item m :
  copy_item now src_zip updated_files item = Ok m ->
  filename (info m) = filename item.
Proof.
  unfold copy_item. destruct (updated_files !! filename item).
  - destruct (fresh_info now (filename item)) as [zinfo|] eqn:Hz; [|discriminate].
    intros [= <-]. by rewrite (fresh_info_ok _ _ Hz).
  - destruct (read src_zip (filename item)); [|discriminate]. by intros [= <-].
Qed.

(** The loop writes one member per source entry, under the entry's
    name. *)
Lemma copy_items_names updated_files items : forall written dst,
  copy_items now src_zip updated_files items written = (Ok tt, dst) ->
  namelist dst = (namelist written ++ map filename items)%list.
Proof.
  induction items as [|item items IH]; intros written dst H.
  - injection H as <-. by rewrite app_nil_r.
  - cbn [copy_items] in H.
    destruct (copy_item now src_zip updated_files item) as [m|] eqn:Hm;
      [|discriminate].
    rewrite (IH _ _ H). unfold namelist, infolist.
    rewrite !map_app, <- app_assoc. cbn [map app].
    by rewrite (copy_item_name _ _ _ Hm).
Qed.

(** An update for a name that no entry has changes nothing. *)
Lemma copy_items_ignores updated_files k v items : forall written,
  k ∉ map filename items ->
  copy_items now src_zip (<[k := v]> updated_files) items written
  = copy_items now src_zip updated_files items written.
Proof.
  induction items as [|item items IH]; intros written Hk; [reflexivity|].
  cbn [map] in Hk. apply not_elem_of_cons in Hk as [Hne Hk].
  cbn [copy_items]. unfold copy_item.
  rewrite lookup_insert_ne by done.
  destruct (updated_files !! filename item).
  - destruct (fresh_info now (filename item)); [by apply IH | reflexivity].
  - destruct (read src_zip (filename item)); [by apply IH | reflexivity].
Qed.

End rebuilt.

(** What a call leaves on disk, case by case. *)
Lemma replace_embedded_excel_files_cases now temp_path fs pptx_path updated_files :
  files fs !! temp_path = None ->
  temp_path <> pptx_path ->
  replace_embedded_excel_files now temp_path fs pptx_path updated_files
  = match open_zip fs pptx_path with
    | Ok src_zip =>
        match copy_items now src_zip updated_files (infolist src_zip) [] with
        | (Ok _, dst_zip) =>
            if bool_decide (pptx_path ∈ locked fs) then fs
            else if bool_decide (pptx_path ∈ breaks fs) then
              mkFS (<[pptx_path := Partial (Zip dst_zip)]> (files fs))
                   (locked fs) (breaks fs)
            else mkFS (<[pptx_path := Zip dst_zip]> (files fs))
                      (locked fs) (breaks fs)
        | (Raise _, _) => fs
        end
    | Raise _ => fs
    end.
Proof.
  intros Hfresh Hne. destruct fs as [fl lk bk]. cbn [files locked breaks] in *.
  unfold replace_embedded_excel_files, rebuild, open_zip.
  cbn [files locked breaks].
  rewrite lookup_insert_ne by done.
  destruct (fl !! pptx_path) as [[src_zip|b|c]|] eqn:Hsrc;
    try (unfold remove_if_exists; cbn [files locked breaks];
         by rewrite delete_insert_id).
  destruct (copy_items now src_zip updated_files (infolist src_zip) [])
    as [[[]|e] dst_zip].
  - unfold move. cbn [files locked breaks]. rewrite lookup_insert_eq.
    rewrite insert_insert_eq. rewrite lookup_insert_ne by done. rewrite Hsrc.
    case_bool_decide.
    + unfold remove_if_exists. cbn [files locked breaks].
      by rewrite delete_insert_id.
    + case_bool_decide.
      * unfold remove_if_exists. cbn [files locked breaks].
        rewrite delete_insert_ne by done. by rewrite delete_insert_id.
      * by rewrite delete_insert_id.
  - unfold remove_if_exists. cbn [files locked breaks].
    by rewrite insert_insert_eq, delete_insert_id.
Qed.

Lemma Forall2_map_l {A B C} (f : A -> B) (R : B -> C -> Prop) l : forall k,
  Forall2 R (map f l) k -> Forall2 (fun x y => R (f x) y) l k.
Proof.
  induction l as [|x l IH]; intros k H; inversion H; subst; constructor; auto.
Qed.

Lemma Forall2_diag {A} (R : A -> A -> Prop) l :
  (forall x, R x x) -> Forall2 R l l.
Proof. intros HR. induction l; constructor; auto. Qed.

(** *** Reading members by name *)

Lemma elem_of_namelist a n :
  n ∈ namelist a <-> exists m, m ∈ a /\ filename (info m) = n.
Proof.
  unfold namelist, infolist. induction a as [|m a IH]; cbn [map].
  - split; [by intros ?%elem_of_nil | by intros (? & ?%elem_of_nil & _)].
  - rewrite elem_of_cons, IH. split.
    + intros [-> | (m' & ? & ?)]; [exists m | exists m'];
        (split; [|done]); [by left | by right].
    + intros (m' & [-> | ?]%elem_of_cons & E); [by left | right; eauto].
Qed.

Lemma read_absent a n : n ∉ namelist a -> read a n = Raise OSError.
Proof.
  intros H. unfold read.
  destruct (last (filter _ a)) as [m|] eqn:E; [|reflexivity].
  apply last_Some_elem_of, list_elem_of_filter in E as [En Em].
  exfalso. apply H, elem_of_namelist. eauto.
Qed.

(** When every member called [n] holds [d], reading [n] gives [d]. *)
Lemma read_present a n d :
  n ∈ namelist a ->
  Forall (fun m => filename (info m) = n -> data m = Some d) a ->
  read a n = Ok d.
Proof.
  intros Hn Hall. unfold read.
  destruct (last (filter _ a)) as [m|] eqn:E.
  - apply last_Some_elem_of, list_elem_of_filter in E as [En Em].
    rewrite Forall_forall in Hall.
    by rewrite (Hall m Em En).
  - apply last_None in E. apply elem_of_namelist in Hn as (m & Hm & En).
    by destruct (filter_nil_not_elem_of _ _ _ E En).
Qed.

Lemma infolist_named a :
  Forall (fun item => filename item ∈ namelist a) (infolist a).
Proof.
  unfold namelist. induction (infolist a) as [|item items IH]; constructor.
  - cbn [map]. by left.
  - eapply Forall_impl; [exact IH|]. intros x Hx. cbn [map]. by right.
Qed.

(** *** Extract *)

Lemma read_all_lookup src_zip names : forall acc updated_files,
  read_all src_zip names acc = Ok updated_files ->
  (forall n, n ∈ names ->
     exists d, read src_zip n = Ok d /\ updated_files !! n = Some d)
  /\ (forall n, n ∉ names -> updated_files !! n = acc !! n).
Proof.
  induction names as [|f names IH]; intros acc u H.
  - injection H as <-. split; [by intros n ?%elem_of_nil | done].
  - cbn [read_all] in H.
    destruct (read src_zip f) as [d|] eqn:Hd; [|discriminate].
    destruct (IH _ _ H) as [Hin Hout]. split.
    + intros n Hn. destruct (decide (n ∈ names)) as [|Hnot]; [by apply Hin|].
      apply elem_of_cons in Hn as [-> | ?]; [|done].
      exists d. split; [done|]. by rewrite (Hout _ Hnot), lookup_insert_eq.
    + intros n [Hne Hnot]%not_elem_of_cons.
      by rewrite (Hout _ Hnot), lookup_insert_ne.
Qed.

Lemma extracted_lookup fs pptx_path src_zip updated_files n :
  files fs !! pptx_path = Some (Zip src_zip) ->
  extract_embedded_excel_files fs pptx_path = Ok updated_files ->
  n ∈ namelist src_zip ->
  if is_embedded_excel n
  then exists d, read src_zip n = Ok d /\ updated_files !! n = Some d
  else updated_files !! n = None.
Proof.
  intros Hsrc H Hn. unfold extract_embedded_excel_files, open_zip in H.
  rewrite Hsrc in H. apply read_all_lookup in H as [Hin Hout].
  destruct (is_embedded_excel n) eqn:E.
  - apply Hin, list_elem_of_filter. by split.
  - rewrite Hout; [done|]. intros [? _]%list_elem_of_filter. congruence.
Qed.

(** *** Substitute the extracted bytes *)

Section noop.
Variable now : DateTime.
Variable src_zip : Archive.
Variable updated_files : gmap string bytes.

Hypothesis extracted : forall n,
  n ∈ namelist src_zip ->
  if is_embedded_excel n
  then exists d, read src_zip n = Ok d /\ updated_files !! n = Some d
  else updated_files !! n = None.

(** How a member of the rebuilt archive relates to the entry it was
    written for: the name and the bytes are the entry's, and the
    metadata of an entry that was not extracted are the entry's as the
    archive writer stores them. *)
Definition rewritten (item : ZipInfo) (m : Member) : Prop :=
  filename (info m) = filename item
  /\ (exists d, read src_zip (filename item) = Ok d /\ data m = Some d)
  /\ (is_embedded_excel (filename item) = false -> info m = stored item).

Lemma copy_item_rewritten item m :
  filename item ∈ namelist src_zip ->
  copy_item now src_zip updated_files item = Ok m ->
  rewritten item m.
Proof.
  intros Hn H. specialize (extracted _ Hn). unfold copy_item in H.
  destruct (is_embedded_excel (filename item)) eqn:E.
  - destruct extracted as (d & Hd & Hu). rewrite Hu in H.
    destruct (fresh_info now (filename item)) as [zinfo|] eqn:Hz;
      [|discriminate].
    injection H as <-. apply fresh_info_ok in Hz as ->.
    split_and!; [reflexivity | by exists d | intros; congruence].
  - rewrite extracted in H.
    destruct (read src_zip (filename item)) as [d|] eqn:Hd; [|discriminate].
    injection H as <-. split_and!; [reflexivity | by exists d | reflexivity].
Qed.

Lemma copy_items_rewritten items : forall written dst_zip,
  Forall (fun item => filename item ∈ namelist src_zip) items ->
  copy_items now src_zip updated_files items written = (Ok tt, dst_zip) ->
  exists ms, dst_zip = (written ++ ms)%list /\ Forall2 rewritten items ms.
Proof.
  induction items as [|item items IH]; intros written dst Hin H.
  - injection H as <-. exists []. by rewrite app_nil_r.
  - inversion Hin as [|? ? Hitem Hitems]; subst. cbn [copy_items] in H.
    destruct (copy_item now src_zip updated_files item) as [m|] eqn:Hm;
      [|discriminate].
    destruct (IH _ _ Hitems H) as (ms & -> & Hms).
    exists (m :: ms). rewrite <- app_assoc. split; [done|].
    constructor; [by apply copy_item_rewritten | done].
Qed.

Lemma rewritten_read items ms n :
  Forall2 rewritten items ms ->
  n ∈ map filename items ->
  exists d, read src_zip n = Ok d
            /\ Forall (fun m => filename (info m) = n -> data m = Some d) ms.
Proof.
  intros H Hn.
  assert (exists d, read src_zip n = Ok d) as [d Hd].
  { induction H as [|item m items ms (_ & (d & Hd & _) & _) _ IH];
      [by apply elem_of_nil in Hn|].
    cbn [map] in Hn. apply elem_of_cons in Hn as [-> | Hn]; eauto. }
  exists d. split; [done|]. clear Hn.
  induction H as [|item m items' ms' (En & (d' & Hd' & Hm) & _) _ IH];
    constructor; [|exact IH].
  intros E. rewrite <- En, E, Hd in Hd'. by injection Hd' as <-.
Qed.

End noop.

End SurgeonFacts.

(* ===================================================================== *)
(** ** The text substitution, claim by claim *)
(* ===================================================================== *)

Module TextClaims.
Import PyStr Re Engine Walker Examples EngineFacts WalkerFacts.

(** C1. Scenario 1 as the code runs it: for the mapping name -> Acme with
    replace_all, no case matching and whole words, on a paragraph of one
    run "Hello {{name}}, welcome <name>!", [replace_text] returns the
    count 4 and saves the text
    "Hello {{Acme}}, welcome <name>!Hello {{name}}, welcome <Acme>!",
    where the scenario expects the count 2 and "Hello Acme, welcome Acme!". *)
Theorem scenario1_actual :
  replace_text deck_path acme true false true (world_of [scenario1])
  = ((true, 4),
     saved [[mkFragment
               "Hello {{Acme}}, welcome <name>!Hello {{name}}, welcome <Acme>!" 7]]).
Proof. vm_compute. reflexivity. Qed.

(** However the text of scenario 1 is split into runs, a call of the
    helper that returns has counted 4. *)
Lemma scenario1_any_runs runs runs' u n :
  replace_in_text "Hello {{name}}, welcome <name>!" true false true runs acme
  = Ok (runs', (u, n)) ->
  n = 4.
Proof. intros H. by rewrite (replace_in_text_count _ _ _ _ _ _ _ _ H). Qed.

(** C2. The patterns built for a key, as text: the plain pattern and the
    double-brace pattern hold the escaped key, the angle and the bracket
    pattern do not depend on the key at all, and so they match any
    content between their delimiters. *)
Theorem angle_and_bracket_ignore_key :
  (forall old_text,
     map fst (patterns old_text)
     = [ escape old_text;
         "\{\{(" +:+ escape old_text +:+ ")\}\}";
         "\<([^>]+)\>";
         "\[([^\]]+)\]" ])
  /\ map (fun pattern => finditer pattern "see <other> and [other]" false)
         (searched false "name")
     = [Some []; Some []; Some [(4, 11)]; Some [(16, 23)]].
Proof. split; [intros; by rewrite patterns_unfold | by vm_compute]. Qed.

(** C3. A paragraph "<other>" holds none of the four spellings of the key
    "name", and yet one pass rewrites its run to "Acme". *)
Theorem other_placeholder_rewritten :
  map (fun spelling => find "<other>" spelling 0)
      ["name"; "{{name}}"; "<name>"; "[name]"]
  = [-1; -1; -1; -1]
  /\ visit_paragraph acme true true false [mkFragment "<other>" 7] 0
     = Ok ([mkFragment "Acme" 7], 1, false).
Proof. split; by vm_compute. Qed.

(** C4. Without replace_all, two keys that both match in one paragraph
    are both applied and both counted: the call returns the count 2. *)
Theorem first_only_runs_every_key :
  replace_text deck_path [(PStr "a", PStr "X"); (PStr "b", PStr "Y")]
               false true false
               (world_of [[mkFragment "a" 1; mkFragment "b" 2]])
  = ((true, 2), saved [[mkFragment "X" 1; mkFragment "Y" 2]]).
Proof. vm_compute. reflexivity. Qed.

(** C8. A match with an empty replacement that covers a whole run: the
    match is counted, and the run keeps its old text instead of being
    dropped. *)
Theorem run_emptied_by_replacement_is_kept :
  visit_paragraph [(PStr "x", PStr "")] true true false
                  [mkFragment "a" 1; mkFragment "x" 2] 0
  = Ok ([mkFragment "a" 1; mkFragment "x" 2], 1, false).
Proof. by vm_compute. Qed.

(** A run of empty text is removed by the first rewrite and once more by
    the second, which raises: the call fails and nothing is saved. *)
Lemma blank_run_makes_the_call_fail :
  replace_text deck_path [(PStr "k", PStr "v")] true true false
               (world_of [[mkFragment "{{k}}" 1; mkFragment "" 2]])
  = ((false, 0),
     mkWorld {[ "deck.pptx" :=
                  mkFile (Some (deck_of [[mkFragment "{{k}}" 1; mkFragment "" 2]]))
                         true ]}
             [Opened "deck.pptx"]).
Proof. vm_compute. reflexivity. Qed.

(** C7. The key X occurs nowhere in the text, neither plain nor between
    delimiters, in any case; yet the call with the flags of
    [replace_text_in_slides_and_embedded_sheets] returns (true, 1), not
    (true, 0), and saves the text with [1] replaced by the value: the
    bracket pattern does not hold the key and matches [1]. *)
Theorem absent_key_is_counted :
  replace_text deck_path [(PStr "X", PStr "Y")] true false true
               (world_of [[mkFragment "see [1] for details" 7]])
  = ((true, 1), saved [[mkFragment "see Y for details" 7]])
  /\ Forall (fun spelling =>
               find (lower "see [1] for details") (lower spelling) 0 = -1)
            ["X"; "{{X}}"; "<X>"; "[X]"].
Proof. split; [by vm_compute | repeat constructor]. Qed.

(** X22. A missing file, a suffix other than .pptx or .ppt, or an empty
    mapping makes [replace_text] return (false, 0) with the world as it
    was: nothing is opened, nothing is written. A writable, loadable file
    with a valid suffix and a non-empty mapping none of whose searched
    patterns matches in any paragraph gives (true, 0), and the
    presentation is saved as it was. *)
Theorem validation_and_no_match file_path replace_dict
    replace_all match_case whole_word w :
  (disk w !! location file_path = None
   \/ ~ valid_suffix file_path
   \/ replace_dict = [] ->
   replace_text file_path replace_dict replace_all match_case whole_word w
   = ((false, 0), w))
  /\ (forall presentation,
       disk w !! location file_path = Some (mkFile (Some presentation) true) ->
       valid_suffix file_path ->
       replace_dict <> [] ->
       match_total replace_dict match_case whole_word presentation = 0 ->
       replace_text file_path replace_dict replace_all match_case whole_word w
       = ((true, 0),
          mkWorld (disk w)
                  (trace w ++ [Opened (location file_path);
                               Saved (location file_path)]))).
Proof.
  split.
  - intros [H | [H | H]];
      [by apply rejected_missing | by apply rejected_suffix | by apply rejected_empty].
  - intros presentation Hfile Hsuffix Hdict Hzero.
    destruct (walk_visited replace_dict replace_all match_case whole_word
                (fun p => paragraph_count replace_dict match_case whole_word p = 0)
                True
                (paragraph_visited_no_match replace_dict replace_all
                   match_case whole_word)
                presentation) as (presentation' & Hwalk & Hsame).
    { unfold match_total in Hzero.
      apply sumZ_map_zero in Hzero; [done | apply paragraph_count_nonneg]. }
    rewrite Hsame in Hwalk by done. rewrite Hzero in Hwalk.
    rewrite (accepted _ _ _ _ _ _ _ _ _ Hfile Hsuffix Hdict Hwalk).
    by rewrite insert_id.
Qed.

Lemma validation_and_no_match_witness :
  replace_text (mkPath "notes.txt" "notes.txt") acme true false true
               (world_of [scenario1])
  = ((false, 0), world_of [scenario1])
  /\ replace_text deck_path [(PStr "X", PStr "Y")] true false true
                  (world_of [[mkFragment "nothing here" 7]])
     = ((true, 0), saved [[mkFragment "nothing here" 7]]).
Proof.
  split.
  - apply (proj1 (validation_and_no_match (mkPath "notes.txt" "notes.txt") acme
                    true false true (world_of [scenario1]))).
    left. reflexivity.
  - apply (proj2 (validation_and_no_match deck_path [(PStr "X", PStr "Y")]
                    true false true (world_of [[mkFragment "nothing here" 7]]))
                 (deck_of [[mkFragment "nothing here" 7]])).
    + reflexivity.
    + vm_compute. left.
    + discriminate.
    + vm_compute. reflexivity.
Defined.

(** C9, counterexample. Without replace_all the count is not the number
    of matches: the text "a a" has two matches of the key "a" and the
    call returns 1. And a call that fails returns 0 whatever matches
    there are: with a run of empty text after {{k}}, the key k has two
    matches and the call returns (false, 0). *)
Lemma first_only_count_is_not_match_total :
  fst (replace_text deck_path [(PStr "a", PStr "b")] false true false
                    (world_of [[mkFragment "a a" 7]]))
  = (true, 1)
  /\ match_total [(PStr "a", PStr "b")] true false
                 (deck_of [[mkFragment "a a" 7]])
     = 2
  /\ fst (replace_text deck_path [(PStr "k", PStr "v")] true true false
                       (world_of [[mkFragment "{{k}}" 1; mkFragment "" 2]]))
     = (false, 0)
  /\ match_total [(PStr "k", PStr "v")] true false
                 (deck_of [[mkFragment "{{k}}" 1; mkFragment "" 2]])
     = 2.
Proof. split_and!; by vm_compute. Qed.

(** X23. With replace_all, on a writable, loadable file with a valid
    suffix, a non-empty mapping and no run of empty text, the call
    succeeds, and the count that [replace_text] returns is the number of
    matches of every pattern of every usable key in the concatenated text
    of every paragraph with runs. *)
Theorem call_without_blank_runs_succeeds file_path replace_dict match_case
    whole_word w presentation :
  disk w !! location file_path = Some (mkFile (Some presentation) true) ->
  valid_suffix file_path ->
  replace_dict <> [] ->
  Forall no_blank_run (all_paragraphs presentation) ->
  fst (replace_text file_path replace_dict true match_case whole_word w)
  = (true, match_total replace_dict match_case whole_word presentation).
Proof.
  intros Hfile Hsuffix Hdict Hruns.
  destruct (walk_visited replace_dict true match_case whole_word
              no_blank_run False
              (paragraph_visited_all replace_dict match_case whole_word)
              presentation Hruns) as (presentation' & Hwalk & _).
  by rewrite (accepted _ _ _ _ _ _ _ _ _ Hfile Hsuffix Hdict Hwalk).
Qed.

Lemma call_without_blank_runs_succeeds_witness :
  fst (replace_text deck_path [(PStr "k", PStr "v")] true true false
                    (world_of [[mkFragment "{{k}}" 7]]))
  = (true, 2).
Proof.
  refine (eq_trans
            (call_without_blank_runs_succeeds deck_path [(PStr "k", PStr "v")] true false
               (world_of [[mkFragment "{{k}}" 7]]) (deck_of [[mkFragment "{{k}}" 7]])
               _ _ _ _) _).
  - reflexivity.
  - vm_compute. left.
  - discriminate.
  - repeat constructor; discriminate.
  - vm_compute. reflexivity.
Defined.

End TextClaims.

(* ===================================================================== *)
(** ** The package surgery, claim by claim *)
(* ===================================================================== *)

Module PackageClaims.
Import PyStr Surgeon Examples SurgeonFacts.

(** C5, counterexample. The workbook of the sample package is stored
    uncompressed and dated 2020, and both entries have external
    attributes of 0. Extract returns the workbook's bytes; Substitute
    with these very bytes writes the workbook anew, deflated and dated
    with the time of the call (to the even second), and copies the slide
    with external attributes of 0o600 << 16: neither entry is what it
    was. Where the write over the original breaks off, what is left is
    not an archive at all. *)
Lemma noop_update_changes_metadata :
  extract_embedded_excel_files (disk_of package) "deck.pptx"
  = Ok {[ "ppt/embeddings/Sheet1.xlsx" := workbook ]}
  /\ files (replace_embedded_excel_files today "tmp.pptx" (disk_of package)
              "deck.pptx" {[ "ppt/embeddings/Sheet1.xlsx" := workbook ]})
       !! "deck.pptx"
     = Some (Zip
         [ mkMember (mkZipInfo "ppt/embeddings/Sheet1.xlsx"
                               (2026, 11, 3, 9, 0, 0) ZIP_DEFLATED 0
                               25165824 [] [])
                    (Some workbook);
           mkMember (mkZipInfo "ppt/slides/slide1.xml" built ZIP_DEFLATED 0
                               25165824 [] [])
                    (Some slide_xml) ])
  /\ files (replace_embedded_excel_files today "tmp.pptx" (disk_of package)
              "deck.pptx" {[ "ppt/embeddings/Sheet1.xlsx" := workbook ]})
       !! "deck.pptx"
     <> Some (Zip package)
  /\ open_zip (replace_embedded_excel_files today "tmp.pptx"
                 (breaking_disk_of package) "deck.pptx"
                 {[ "ppt/embeddings/Sheet1.xlsx" := workbook ]})
              "deck.pptx"
     = Raise PackageError.
Proof.
  split_and!; [by vm_compute | by vm_compute | by vm_compute | by vm_compute].
Qed.

(** C5, amended. Where the write over the original does not break off,
    Extract followed by Substitute with the extracted bytes leaves the
    container with the same entry names in the same order, and every
    name reads back the same bytes as before. Unless nothing was rebuilt
    and the container is exactly what it was, every entry that is not an
    embedded workbook has the metadata of its source entry as the
    archive writer stores them: name, compression method, comment and
    extra field as they were, the time stamp to the even second, the flag
    bits reset, and external attributes of 0 replaced by 0o600 << 16. *)
Theorem noop_update_keeps_names_and_payloads now temp_path fs pptx_path
    src_zip updated_files :
  files fs !! temp_path = None ->
  temp_path <> pptx_path ->
  files fs !! pptx_path = Some (Zip src_zip) ->
  pptx_path ∉ breaks fs ->
  extract_embedded_excel_files fs pptx_path = Ok updated_files ->
  exists dst_zip,
    files (replace_embedded_excel_files now temp_path fs pptx_path updated_files)
      !! pptx_path = Some (Zip dst_zip)
    /\ namelist dst_zip = namelist src_zip
    /\ (forall n, read dst_zip n = read src_zip n)
    /\ (dst_zip = src_zip
        \/ Forall2 (fun m m' =>
                      is_embedded_excel (filename (info m)) = false ->
                      info m' = stored (info m))
                   src_zip dst_zip).
Proof.
  intros Hfresh Hne Hsrc Hwhole Hextract.
  assert (exists dst_zip : Archive,
            files fs !! pptx_path = Some (Zip dst_zip)
            /\ namelist dst_zip = namelist src_zip
            /\ (forall n, read dst_zip n = read src_zip n)
            /\ (dst_zip = src_zip
                \/ Forall2 (fun m m' =>
                              is_embedded_excel (filename (info m)) = false ->
                              info m' = stored (info m))
                           src_zip dst_zip)) as Hsame.
  { exists src_zip. split_and!; [done | done | done | by left]. }
  rewrite replace_embedded_excel_files_cases by done.
  unfold open_zip. rewrite Hsrc.
  destruct (copy_items now src_zip updated_files (infolist src_zip) [])
    as [[[]|e] dst_zip] eqn:Hcopy; [|exact Hsame].
  case_bool_decide; [exact Hsame|]. rewrite bool_decide_false by done.
  exists dst_zip. cbn [files]. rewrite lookup_insert_eq.
  pose proof (copy_items_names _ _ _ _ _ _ Hcopy) as Hnames. cbn [app] in Hnames.
  destruct (copy_items_rewritten now src_zip updated_files
              (fun n => extracted_lookup fs pptx_path src_zip updated_files n
                          Hsrc Hextract)
              _ _ _ (infolist_named src_zip) Hcopy) as (ms & Hms & Hrel).
  cbn [app] in Hms. subst ms. split_and!; [done | exact Hnames | |].
  - intros n. destruct (decide (n ∈ namelist src_zip)) as [Hn | Hn].
    + destruct (rewritten_read src_zip _ _ n Hrel Hn) as (d & Hd & Hall).
      rewrite Hd. apply read_present; [by rewrite Hnames | exact Hall].
    + rewrite !read_absent; [done | done | by rewrite Hnames].
  - right. apply Forall2_map_l in Hrel. eapply Forall2_impl; [exact Hrel|].
    intros m m' (_ & _ & Hinfo). exact Hinfo.
Qed.

Lemma noop_update_keeps_names_and_payloads_witness :
  exists dst_zip,
    files (replace_embedded_excel_files today "tmp.pptx" (disk_of package)
             "deck.pptx" {[ "ppt/embeddings/Sheet1.xlsx" := workbook ]})
      !! "deck.pptx" = Some (Zip dst_zip)
    /\ namelist dst_zip = namelist package
    /\ (forall n, read dst_zip n = read package n)
    /\ (dst_zip = package
        \/ Forall2 (fun m m' =>
                      is_embedded_excel (filename (info m)) = false ->
                      info m' = stored (info m))
                   package dst_zip).
Proof.
  apply (noop_update_keeps_names_and_payloads today "tmp.pptx" (disk_of package)
           "deck.pptx" package {[ "ppt/embeddings/Sheet1.xlsx" := workbook ]}).
  - reflexivity.
  - discriminate.
  - reflexivity.
  - apply not_elem_of_empty.
  - vm_compute. reflexivity.
Defined.

(** C6. The document is on a volume where a write breaks off. Substitute
    builds the new container in the temporary file; the move then finds
    the document in place, copies the temporary file over it, and the copy
    breaks off. The temporary file is removed, and the document is left
    holding the leading part of the new container: it is neither the
    container it was nor one that can be opened. *)
Theorem broken_copy_leaves_a_partial_container :
  let final :=
    replace_embedded_excel_files today "tmp.pptx" (breaking_disk_of package)
      "deck.pptx" {[ "ppt/embeddings/Sheet1.xlsx" := new_workbook ]} in
  files final !! "deck.pptx"
  = Some (Partial (Zip
      [ mkMember (mkZipInfo "ppt/embeddings/Sheet1.xlsx"
                            (2026, 11, 3, 9, 0, 0) ZIP_DEFLATED 0
                            25165824 [] [])
                 (Some new_workbook);
        mkMember (mkZipInfo "ppt/slides/slide1.xml" built ZIP_DEFLATED 0
                            25165824 [] [])
                 (Some slide_xml) ]))
  /\ files final !! "tmp.pptx" = None
  /\ files final !! "deck.pptx" <> files (breaking_disk_of package) !! "deck.pptx"
  /\ open_zip final "deck.pptx" = Raise PackageError.
Proof.
  split_and!; [by vm_compute | by vm_compute | by vm_compute | by vm_compute].
Qed.

(** C10. Whatever the updates are, the container that
    [replace_embedded_excel_files] leaves has the entry names of the
    source container, in the same order; and an update for a name that
    the source does not have changes nothing in what the call does. The
    first part is about a container that is left whole: the write over
    the original does not break off. *)
Theorem rebuilt_keeps_entry_names now temp_path fs pptx_path src_zip updated_files :
  files fs !! temp_path = None ->
  temp_path <> pptx_path ->
  files fs !! pptx_path = Some (Zip src_zip) ->
  pptx_path ∉ breaks fs ->
  (exists dst_zip,
     files (replace_embedded_excel_files now temp_path fs pptx_path updated_files)
       !! pptx_path = Some (Zip dst_zip)
     /\ namelist dst_zip = namelist src_zip)
  /\ (forall k v,
        k ∉ namelist src_zip ->
        replace_embedded_excel_files now temp_path fs pptx_path
          (<[k := v]> updated_files)
        = replace_embedded_excel_files now temp_path fs pptx_path updated_files).
Proof.
  intros Hfresh Hne Hsrc Hwhole. split.
  - rewrite replace_embedded_excel_files_cases by done.
    unfold open_zip. rewrite Hsrc.
    destruct (copy_items now src_zip updated_files (infolist src_zip) [])
      as [[[]|e] dst_zip] eqn:Hcopy; [|by exists src_zip].
    case_bool_decide; [by exists src_zip|]. rewrite bool_decide_false by done.
    exists dst_zip. cbn [files]. rewrite lookup_insert_eq. split; [done|].
    by rewrite (copy_items_names _ _ _ _ _ _ Hcopy).
  - intros k v Hk. rewrite !replace_embedded_excel_files_cases by done.
    unfold open_zip. rewrite Hsrc. by rewrite copy_items_ignores.
Qed.

Lemma rebuilt_keeps_entry_names_witness :
  (exists dst_zip,
     files (replace_embedded_excel_files today "tmp.pptx" (disk_of package)
              "deck.pptx" {[ "ppt/embeddings/Missing.xlsx" := new_workbook ]})
       !! "deck.pptx" = Some (Zip dst_zip)
     /\ namelist dst_zip = namelist package)
  /\ (forall k v,
        k ∉ namelist package ->
        replace_embedded_excel_files today "tmp.pptx" (disk_of package) "deck.pptx"
          (<[k := v]> {[ "ppt/embeddings/Missing.xlsx" := new_workbook ]})
        = replace_embedded_excel_files today "tmp.pptx" (disk_of package)
            "deck.pptx" {[ "ppt/embeddings/Missing.xlsx" := new_workbook ]}).
Proof.
  apply (rebuilt_keeps_entry_names today "tmp.pptx" (disk_of package) "deck.pptx"
           package {[ "ppt/embeddings/Missing.xlsx" := new_workbook ]}).
  - reflexivity.
  - discriminate.
  - reflexivity.
  - apply not_elem_of_empty.
Defined.

End PackageClaims.

(* ===================================================================== *)
(** ** More about the substitution engine *)
(* ===================================================================== *)

Module EngineMore.
Import PyStr Re Engine ReFacts EngineFacts.

(** *** What a rewrite keeps *)

Lemma imap_fonts (g : nat -> Run -> Run) runs :
  (forall i run, font (g i run) = font run) ->
  map font (imap g runs) = map font runs.
Proof.
  revert g. induction runs as [|run runs IH]; intros g Hg; [reflexivity|].
  rewrite imap_cons. cbn [map]. rewrite Hg. f_equal. apply IH.
  intros i r. apply Hg.
Qed.

Lemma update_runs_fonts runs new_text :
  map font (update_runs runs new_text) = map font runs.
Proof.
  apply imap_fonts. intros i run. by destruct (new_text !! i) as [[t f]|].
Qed.

Lemma remove_empty_runs_fonts runs runs' :
  remove_empty_runs runs = Ok runs' -> map font runs' = map font runs.
Proof.
  revert runs'. induction runs as [|run rest IH]; intros runs' H.
  - by injection H as <-.
  - cbn [remove_empty_runs] in H.
    destruct (remove_empty_runs rest) as [rest'|]; [|discriminate].
    rewrite bind_ok in H. cbn [map]. rewrite <- (IH rest' eq_refl).
    destruct (is_empty (text run)).
    + unfold remove in H. destruct (attached run); [|discriminate].
      by injection H as <-.
    + by injection H as <-.
Qed.

Lemma rewrite_fonts full_text matches v runs runs' :
  rewrite full_text matches v runs = Ok runs' ->
  map font runs' = map font runs.
Proof.
  intros H%remove_empty_runs_fonts. by rewrite H, update_runs_fonts.
Qed.

(** *** Invariants of the two loops *)

Section invariants.
Variable full_text : string.
Variables replace_all match_case whole_word : bool.
Variable J : state -> Prop.

Hypothesis J_step : forall st matches v runs' count,
  J st ->
  rewrite full_text matches v (st_runs st) = Ok runs' ->
  0 < count ->
  J (mkState runs' true (total_count st + count)).

Lemma for_patterns_invariant old_text v ps : forall st st',
  J st ->
  for_patterns full_text replace_all match_case whole_word old_text v ps st
  = Ok st' ->
  J st'.
Proof.
  induction ps as [|[pattern original_text] ps IH]; intros st st' HJ H.
  - by injection H as <-.
  - cbn [for_patterns] in H.
    destruct (find_matches full_text match_case
                (bounded whole_word old_text pattern original_text))
      as [[|m matches]|]; [by eapply IH | |discriminate].
    rewrite bind_ok in H. destruct replace_all.
    + cbv beta iota zeta in H.
      rewrite (proj2 (Z.eqb_neq _ 0)) in H by (cbn [length]; lia).
      destruct (rewrite full_text (m :: matches) v (st_runs st))
        as [runs'|] eqn:Hr; [|discriminate].
      rewrite bind_ok in H. cbn [negb] in H. eapply IH; [|exact H].
      eapply J_step; [exact HJ | exact Hr | cbn [length]; lia].
    + change (take 1 (m :: matches)) with [m] in H.
      cbv beta iota zeta in H. change (1 =? 0) with false in H.
      destruct (rewrite full_text [m] v (st_runs st)) as [runs'|] eqn:Hr;
        [|discriminate].
      rewrite bind_ok in H. cbn [negb] in H. injection H as <-.
      eapply J_step; [exact HJ | exact Hr | lia].
Qed.

Lemma for_items_invariant dict : forall st st',
  J st ->
  for_items full_text replace_all match_case whole_word dict st = Ok st' ->
  J st'.
Proof.
  induction dict as [|[k v] dict IH]; intros st st' HJ H.
  - by injection H as <-.
  - destruct k as [k| |], v as [v| |]; cbn [for_items] in H;
      try (by eapply IH).
    destruct (is_empty (strip k)); [by eapply IH|].
    destruct (for_patterns full_text replace_all match_case whole_word
                (strip k) v (patterns (strip k)) st) as [st1|] eqn:H1;
      [|discriminate].
    rewrite bind_ok in H. eapply IH; [|exact H].
    by eapply for_patterns_invariant.
Qed.

End invariants.

(** The flag and the count that [replace_in_text] returns agree, the
    count is not negative, and the fonts of the runs are never touched. *)
Lemma replace_in_text_flag_and_fonts full_text replace_all match_case whole_word
    runs dict runs' updated count :
  replace_in_text full_text replace_all match_case whole_word runs dict
  = Ok (runs', (updated, count)) ->
  0 <= count
  /\ updated = (0 <? count)
  /\ map font runs' = map font runs.
Proof.
  unfold replace_in_text. intros H.
  destruct (for_items full_text replace_all match_case whole_word dict
              (mkState runs false 0)) as [st|] eqn:Hst; [|discriminate].
  rewrite bind_ok in H. injection H as <- <- <-.
  apply (for_items_invariant full_text replace_all match_case whole_word
           (fun st => 0 <= total_count st
                      /\ Engine.updated st = (0 <? total_count st)
                      /\ map font (st_runs st) = map font runs)) in Hst;
    [exact Hst | | by cbn].
  intros st0 matches v rs n (Hn & _ & Hf) Hr Hpos. cbn.
  split_and!; [lia | symmetry; apply Z.ltb_lt; lia |].
  by rewrite (rewrite_fonts _ _ _ _ _ Hr).
Qed.

(** *** Items that are skipped *)

(** An item takes part when key and value are strings and the key is not
    blank. *)
Definition usable (item : PyVal * PyVal) : bool :=
  match item with
  | (PStr old_text, PStr _) => negb (is_empty (strip old_text))
  | _ => false
  end.

Lemma for_items_usable full_text replace_all match_case whole_word dict : forall st,
  for_items full_text replace_all match_case whole_word dict st
  = for_items full_text replace_all match_case whole_word
              (List.filter usable dict) st.
Proof.
  induction dict as [|[k v] dict IH]; intros st; [reflexivity|].
  destruct k as [k| |], v as [v| |]; cbn [List.filter usable for_items];
    try apply IH.
  destruct (is_empty (strip k)) eqn:E; cbn [negb for_items]; [apply IH|].
  rewrite E. destruct (for_patterns _ _ _ _ _ _ _ _); [|reflexivity].
  rewrite !bind_ok. apply IH.
Qed.

(** Pairs that are not strings and blank keys change nothing: the call
    does what it does on the usable items alone. *)
Lemma replace_in_text_usable full_text replace_all match_case whole_word runs dict :
  replace_in_text full_text replace_all match_case whole_word runs dict
  = replace_in_text full_text replace_all match_case whole_word runs
                    (List.filter usable dict).
Proof. unfold replace_in_text. by rewrite for_items_usable. Qed.

(** *** Without [replace_all] *)

Lemma for_items_first_only full_text match_case whole_word dict : forall st st',
  for_items full_text false match_case whole_word dict st = Ok st' ->
  total_count st <= total_count st'
  /\ total_count st' <= total_count st + Z.of_nat (length (List.filter usable dict)).
Proof.
  induction dict as [|[k v] dict IH]; intros st st' H.
  - injection H as <-. cbn. lia.
  - destruct k as [k| |], v as [v| |]; cbn [for_items List.filter usable] in H |- *;
      try (by apply IH).
    destruct (is_empty (strip k)); cbn [negb]; [by apply IH|].
    destruct (for_patterns full_text false match_case whole_word
                (strip k) v (patterns (strip k)) st) as [st1|] eqn:H1;
      [|discriminate].
    rewrite bind_ok in H. apply IH in H.
    apply for_patterns_first_only in H1. cbn [length]. lia.
Qed.

(** Without [replace_all] the helper counts at most one per usable item. *)
Lemma replace_in_text_first_only full_text match_case whole_word runs dict
    runs' updated count :
  replace_in_text full_text false match_case whole_word runs dict
  = Ok (runs', (updated, count)) ->
  count <= Z.of_nat (length (List.filter usable dict)).
Proof.
  unfold replace_in_text. intros H.
  destruct (for_items full_text false match_case whole_word dict
              (mkState runs false 0)) as [st|] eqn:Hst; [|discriminate].
  rewrite bind_ok in H. injection H as _ _ <-.
  apply for_items_first_only in Hst. cbn [total_count] in Hst. lia.
Qed.

End EngineMore.

(* ===================================================================== *)
(** ** More about the traversal *)
(* ===================================================================== *)

Module WalkerMore.
Import PyStr Engine Walker EngineFacts WalkerFacts EngineMore.

(** *** What every loop with an early return keeps

    A visit is described by a relation [R] between what it is given and
    what it leaves, and by a relation [Q] between the total before, the
    total after and the return flag. [Q] must hold of a visit that does
    nothing, and must compose along visits that do not return. *)

Lemma Forall2_same {A} (R : A -> A -> Prop) l :
  (forall x, R x x) -> Forall2 R l l.
Proof. intros HR. induction l; constructor; auto. Qed.

Definition post {A} (R : A -> A -> Prop) (Q : Z -> Z -> bool -> Prop)
    (visit : A -> Z -> result (A * Z * bool)) : Prop :=
  forall x t x' t' r, visit x t = Ok (x', t', r) -> R x x' /\ Q t t' r.

Section lifting.
Variable Q : Z -> Z -> bool -> Prop.
Hypothesis Q_stay : forall t, Q t t false.
Hypothesis Q_then : forall t t1 t2 r, Q t t1 false -> Q t1 t2 r -> Q t t2 r.

Lemma for_each_post {A} (R : A -> A -> Prop) visit :
  (forall x, R x x) ->
  post R Q visit ->
  post (Forall2 R) Q (for_each visit).
Proof.
  intros R_refl Hv xs. induction xs as [|x xs IH]; intros t xs' t' r H.
  - injection H as <- <- <-. split; [constructor | apply Q_stay].
  - cbn [for_each] in H.
    destruct (visit x t) as [[[x1 t1] r1]|] eqn:Hx; [|discriminate].
    rewrite bind_ok in H. destruct (Hv _ _ _ _ _ Hx) as [Rx Qx].
    destruct r1.
    + injection H as <- <- <-. split; [|exact Qx].
      constructor; [exact Rx | by apply Forall2_same].
    + destruct (for_each visit xs t1) as [[[xs1 t2] r2]|] eqn:Hxs;
        [|discriminate].
      rewrite bind_ok in H. injection H as <- <- <-.
      destruct (IH _ _ _ _ Hxs) as [Rxs Qxs].
      split; [by constructor | by eapply Q_then].
Qed.

Lemma optional_post {A} (R : A -> A -> Prop) visit :
  post R Q visit ->
  post (option_Forall2 R) Q (visit_optional visit).
Proof.
  intros Hv [a|] t o' t' r H.
  - cbn [visit_optional] in H.
    destruct (visit a t) as [[[a1 t1] r1]|] eqn:Ha; [|discriminate].
    rewrite bind_ok in H. injection H as <- <- <-.
    destruct (Hv _ _ _ _ _ Ha). split; [by constructor | done].
  - injection H as <- <- <-. split; [constructor | apply Q_stay].
Qed.

(** *** The levels of [replace_text] *)

Section levels.
Variable replace_dict : Dict.
Variables replace_all match_case whole_word : bool.
Variable R : Paragraph -> Paragraph -> Prop.
Hypothesis R_refl : forall p, R p p.

Hypothesis paragraph_post :
  post R Q (visit_paragraph replace_dict replace_all match_case whole_word).

Definition same_paragraphs {A} (paras : A -> list Paragraph) (x x' : A) : Prop :=
  Forall2 R (paras x) (paras x').

Lemma text_frame_post :
  post (same_paragraphs paragraphs) Q
       (visit_text_frame replace_dict replace_all match_case whole_word).
Proof.
  intros tf t tf' t' r H. unfold visit_text_frame in H.
  destruct (for_each _ (paragraphs tf) t) as [[[ps t1] r1]|] eqn:E;
    [|discriminate].
  rewrite bind_ok in H. injection H as <- <- <-.
  by apply (for_each_post R _ R_refl paragraph_post) in E.
Qed.

Lemma frame_post :
  post (same_paragraphs frame_paragraphs) Q
       (visit_optional
          (visit_text_frame replace_dict replace_all match_case whole_word)).
Proof.
  intros o t o' t' r H.
  apply (optional_post _ _ text_frame_post) in H as [Ho HQ]. split; [|done].
  destruct Ho; [assumption | constructor].
Qed.

Lemma chart_post :
  post (same_paragraphs chart_paragraphs) Q
       (visit_optional
          (visit_chart replace_dict replace_all match_case whole_word)).
Proof.
  intros o t o' t' r H. destruct o as [[[[tf]|]]|].
  - unfold visit_optional at 1, visit_chart in H.
    cbn [visit_optional chart_title title_text_frame] in H.
    destruct (visit_optional _ tf t) as [[[tf1 t1] r1]|] eqn:E; [|discriminate].
    rewrite !bind_ok in H. injection H as <- <- <-.
    by apply frame_post in E.
  - injection H as <- <- <-. split; [constructor | apply Q_stay].
  - injection H as <- <- <-. split; [constructor | apply Q_stay].
Qed.

Lemma shape_post :
  post (same_paragraphs shape_paragraphs) Q
       (visit_shape replace_dict replace_all match_case whole_word).
Proof.
  intros shape t shape' t' r H. unfold visit_shape in H.
  destruct (visit_optional _ (text_frame shape) t) as [[[tf t1] r1]|] eqn:Ef;
    [|discriminate].
  rewrite bind_ok in H. apply frame_post in Ef as [Rf Qf].
  unfold same_paragraphs, shape_paragraphs. destruct r1.
  - injection H as <- <- <-. split; [|exact Qf]. cbn [text_frame chart].
    apply Forall2_app; [exact Rf | by apply Forall2_same].
  - destruct (visit_optional _ (chart shape) t1) as [[[c t2] r2]|] eqn:Ec;
      [|discriminate].
    rewrite bind_ok in H. injection H as <- <- <-.
    apply chart_post in Ec as [Rc Qc]. split; [|by eapply Q_then].
    cbn [text_frame chart]. by apply Forall2_app.
Qed.

Lemma slide_post :
  post (same_paragraphs slide_paragraphs) Q
       (visit_slide replace_dict replace_all match_case whole_word).
Proof.
  intros slide t slide' t' r H. unfold visit_slide in H.
  destruct (for_each _ (shapes slide) t) as [[[ss t1] r1]|] eqn:E;
    [|discriminate].
  rewrite bind_ok in H. injection H as <- <- <-.
  apply (for_each_post (same_paragraphs shape_paragraphs)) in E as [Rs Qs];
    [| intros s; by apply Forall2_same | exact shape_post].
  split; [|done]. unfold same_paragraphs, slide_paragraphs. cbn [shapes].
  by apply Forall2_bind.
Qed.

Lemma walk_post presentation presentation' total returned :
  walk replace_dict replace_all match_case whole_word presentation
  = Ok (presentation', total, returned) ->
  Forall2 R (all_paragraphs presentation) (all_paragraphs presentation')
  /\ Q 0 total returned.
Proof.
  intros H. unfold walk in H.
  destruct (for_each _ (slides presentation) 0) as [[[ss t1] r1]|] eqn:E;
    [|discriminate].
  rewrite bind_ok in H. injection H as <- <- <-.
  apply (for_each_post (same_paragraphs slide_paragraphs)) in E as [Rs Qs];
    [| intros s; by apply Forall2_same | exact slide_post].
  split; [|done]. unfold all_paragraphs. cbn [slides]. by apply Forall2_bind.
Qed.

End levels.
End lifting.

(** *** Style handles *)

Lemma replace_in_text_live full_text replace_all match_case whole_word
    runs dict runs' res :
  Forall live runs ->
  replace_in_text full_text replace_all match_case whole_word runs dict
  = Ok (runs', res) ->
  Forall live runs'.
Proof.
  unfold replace_in_text. intros Hlive H.
  destruct (for_items full_text replace_all match_case whole_word dict
              (mkState runs false 0)) as [st|] eqn:Hst; [|discriminate].
  rewrite bind_ok in H. injection H as <- _.
  apply (for_items_invariant full_text replace_all match_case whole_word
           (fun st => Forall live (st_runs st))) in Hst; [done | | done].
  intros st0 matches v rs n H0 Hr _. cbn.
  destruct (rewrite_live full_text matches v _ H0) as (rs0 & Hr0 & Hl).
  rewrite Hr in Hr0. by injection Hr0 as ->.
Qed.

Lemma fragments_fonts rs :
  map f_font (fragments rs) `sublist_of` map font rs
  /\ (Forall live rs -> map f_font (fragments rs) = map font rs).
Proof.
  unfold fragments. induction rs as [|r rs [IH1 IH2]]; [by split; constructor|].
  destruct (attached r) eqn:Ha.
  - rewrite filter_cons_True by done. cbn [map f_font]. split.
    + by apply sublist_skip.
    + intros Hl. inversion Hl; subst. by rewrite IH2.
  - rewrite filter_cons_False by congruence. cbn [map]. split.
    + by apply sublist_cons.
    + intros Hl. inversion Hl as [|? ? [Hr _] _]; subst. congruence.
Qed.

(** The style handles that a paragraph keeps: those of the runs that are
    left, in their order; all of them when no run was blank. *)
Definition keeps_fonts (p p' : Paragraph) : Prop :=
  map f_font p' `sublist_of` map f_font p
  /\ (no_blank_run p -> map f_font p' = map f_font p).

Lemma keeps_fonts_refl p : keeps_fonts p p.
Proof. by split. Qed.

Lemma paragraph_keeps_fonts replace_dict replace_all match_case whole_word :
  post keeps_fonts (fun _ _ _ => True)
       (visit_paragraph replace_dict replace_all match_case whole_word).
Proof.
  intros p t p' t' r H. split; [|done]. destruct p as [|f p].
  - injection H as <- _ _. apply keeps_fonts_refl.
  - unfold visit_paragraph in H.
    destruct (replace_in_text _ _ _ _ (runs (f :: p)) replace_dict)
      as [[rs' [u c]]|] eqn:E; [|discriminate].
    rewrite bind_ok in H. injection H as <- _ _.
    pose proof (replace_in_text_flag_and_fonts _ _ _ _ _ _ _ _ _ E)
      as (_ & _ & Hf).
    assert (map font (runs (f :: p)) = map f_font (f :: p)) as Hp
      by (unfold runs; by rewrite map_map).
    destruct (fragments_fonts rs') as [Hs He]. rewrite Hf, Hp in Hs, He.
    split; [exact Hs|]. intros Hb. apply He.
    eapply replace_in_text_live; [|exact E]. by apply runs_live.
Qed.

(** *** The count without [replace_all] *)

(** From a total of 0, either nothing was counted and the traversal goes
    on, or between 1 and [B] were counted and the traversal returns. *)
Definition first_only (B : Z) (t t' : Z) (r : bool) : Prop :=
  t = 0 -> (r = false /\ t' = 0) \/ (r = true /\ 1 <= t' <= B).

Lemma first_only_stay B t : first_only B t t false.
Proof. intros ->. by left. Qed.

Lemma first_only_then B t t1 t2 r :
  first_only B t t1 false -> first_only B t1 t2 r -> first_only B t t2 r.
Proof.
  intros H1 H2 Ht. destruct (H1 Ht) as [[_ ->] | [? _]]; [by apply H2 | done].
Qed.

Lemma paragraph_first_only replace_dict match_case whole_word :
  post (fun _ _ => True)
       (first_only (Z.of_nat (length (List.filter usable replace_dict))))
       (visit_paragraph replace_dict false match_case whole_word).
Proof.
  intros p t p' t' r H. split; [done|]. intros ->. destruct p as [|f p].
  - injection H as _ <- <-. by left.
  - unfold visit_paragraph in H.
    destruct (replace_in_text _ _ _ _ (runs (f :: p)) replace_dict)
      as [[rs' [u c]]|] eqn:E; [|discriminate].
    rewrite bind_ok in H. injection H as _ <- <-.
    pose proof (replace_in_text_flag_and_fonts _ _ _ _ _ _ _ _ _ E)
      as (Hc & -> & _).
    pose proof (replace_in_text_first_only _ _ _ _ _ _ _ _ E) as Hb.
    rewrite Z.add_0_l. cbn [negb]. rewrite andb_true_r.
    destruct (0 <? c) eqn:Hpos.
    + right. apply Z.ltb_lt in Hpos. split; [|lia].
      cbn [andb]. apply Z.gtb_lt. lia.
    + left. apply Z.ltb_ge in Hpos. split; [done | lia].
Qed.

(** *** The outcomes of a call *)

Lemma replace_text_outcome file_path replace_dict replace_all match_case
    whole_word w :
  replace_text file_path replace_dict replace_all match_case whole_word w
  = ((false, 0), w)
  \/ replace_text file_path replace_dict replace_all match_case whole_word w
     = ((false, 0),
        mkWorld (disk w) (trace w ++ [Opened (location file_path)]))
  \/ exists presentation presentation' total returned,
       disk w !! location file_path = Some (mkFile (Some presentation) true)
       /\ walk replace_dict replace_all match_case whole_word presentation
          = Ok (presentation', total, returned)
       /\ replace_text file_path replace_dict replace_all match_case whole_word w
          = ((true, total),
             mkWorld (<[location file_path := mkFile (Some presentation') true]>
                        (disk w))
                     (trace w ++ [Opened (location file_path);
                                  Saved (location file_path)])).
Proof.
  unfold replace_text, replace_text_body, mbind, IO_bind, path_exists.
  destruct (negb _ || negb _); [by left|].
  destruct replace_dict as [|item items]; [by left|].
  unfold load, lift, save.
  destruct (disk w !! location file_path) as [[[presentation|] writable]|] eqn:Hfile;
    [| by right; left | by right; left].
  destruct (walk _ _ _ _ presentation) as [[[presentation' total] returned]|] eqn:Hwalk;
    [| by right; left].
  destruct writable.
  - right; right. exists presentation, presentation', total, returned.
    split_and!; [done | done |].
    destruct returned; cbn [disk trace]; rewrite Hfile; cbn [mret IO_ret];
      by rewrite <- app_assoc.
  - right; left. destruct returned; cbn [disk trace]; by rewrite Hfile.
Qed.

End WalkerMore.

(* ===================================================================== *)
(** ** What the count is, under [replace_all] *)
(* ===================================================================== *)

Module CountClaims.
Import PyStr Engine Walker Examples EngineFacts WalkerFacts WalkerMore.

(** A visit that adds [c x] to the total and does not return. *)
Definition counts {A} (c : A -> Z) (visit : A -> Z -> result (A * Z * bool))
    : Prop :=
  forall x t x' t' r, visit x t = Ok (x', t', r) -> t' = t + c x /\ r = false.

Lemma for_each_counts {A} (c : A -> Z) visit :
  counts c visit -> counts (fun xs => sumZ (map c xs)) (for_each visit).
Proof.
  intros Hv xs. induction xs as [|x xs IH]; intros t xs' t' r H.
  - injection H as _ <- <-. cbn [map]. split; [unfold sumZ; cbn; lia | done].
  - cbn [for_each] in H.
    destruct (visit x t) as [[[x1 t1] r1]|] eqn:Hx; [|discriminate].
    rewrite bind_ok in H. destruct (Hv _ _ _ _ _ Hx) as [-> ->].
    destruct (for_each visit xs (t + c x)) as [[[xs1 t2] r2]|] eqn:Hxs;
      [|discriminate].
    rewrite bind_ok in H. injection H as _ <- <-.
    destruct (IH _ _ _ _ Hxs) as [-> ->]. cbn [map]. rewrite sumZ_cons.
    split; [lia | done].
Qed.

Lemma optional_counts {A} (c : A -> Z) visit :
  counts c visit ->
  counts (fun o => match o with Some a => c a | None => 0 end)
         (visit_optional visit).
Proof.
  intros Hv [a|] t o' t' r H.
  - cbn [visit_optional] in H.
    destruct (visit a t) as [[[a1 t1] r1]|] eqn:Ha; [|discriminate].
    rewrite bind_ok in H. injection H as _ <- <-. by apply Hv in Ha.
  - injection H as _ <- <-. split; [lia | done].
Qed.

Section levels.
Variable replace_dict : Dict.
Variables match_case whole_word : bool.

(** The matches counted in a list of paragraphs. *)
Definition matches_in (ps : list Paragraph) : Z :=
  sumZ (map (paragraph_count replace_dict match_case whole_word) ps).

Lemma matches_in_app ps qs : matches_in (ps ++ qs) = matches_in ps + matches_in qs.
Proof. unfold matches_in. by rewrite map_app, sumZ_app. Qed.

(** With [replace_all], a visit of a paragraph that returns has counted
    the paragraph's matches, whatever its runs are. *)
Lemma paragraph_counts :
  counts (paragraph_count replace_dict match_case whole_word)
         (visit_paragraph replace_dict true match_case whole_word).
Proof.
  intros p t p' t' r H. destruct p as [|f p].
  - injection H as _ <- <-. cbn [paragraph_count]. split; [lia | done].
  - unfold visit_paragraph in H.
    destruct (replace_in_text _ _ _ _ (runs (f :: p)) replace_dict)
      as [[rs' [u c]]|] eqn:E; [|discriminate].
    rewrite bind_ok in H. injection H as _ <- <-.
    rewrite text_of_runs in E. apply replace_in_text_count in E as ->.
    cbn [paragraph_count negb]. split; [done | by rewrite andb_false_r].
Qed.

Lemma text_frame_counts :
  counts (fun tf => matches_in (paragraphs tf))
         (visit_text_frame replace_dict true match_case whole_word).
Proof.
  intros tf t tf' t' r H. unfold visit_text_frame in H.
  destruct (for_each _ (paragraphs tf) t) as [[[ps t1] r1]|] eqn:E;
    [|discriminate].
  rewrite bind_ok in H. injection H as _ <- <-.
  by apply (for_each_counts _ _ paragraph_counts) in E.
Qed.

Lemma frame_counts :
  counts (fun o => matches_in (frame_paragraphs o))
         (visit_optional
            (visit_text_frame replace_dict true match_case whole_word)).
Proof.
  intros o t o' t' r H.
  apply (optional_counts _ _ text_frame_counts) in H. by destruct o.
Qed.

Lemma chart_counts :
  counts (fun o => matches_in (chart_paragraphs o))
         (visit_optional (visit_chart replace_dict true match_case whole_word)).
Proof.
  intros o t o' t' r H. destruct o as [[[[tf]|]]|].
  - unfold visit_optional at 1, visit_chart in H.
    cbn [visit_optional chart_title title_text_frame] in H.
    destruct (visit_optional _ tf t) as [[[tf1 t1] r1]|] eqn:E; [|discriminate].
    rewrite !bind_ok in H. injection H as _ <- <-.
    by apply frame_counts in E.
  - injection H as _ <- <-. split; [unfold matches_in; cbn; lia | done].
  - injection H as _ <- <-. split; [unfold matches_in; cbn; lia | done].
Qed.

Lemma shape_counts :
  counts (fun shape => matches_in (shape_paragraphs shape))
         (visit_shape replace_dict true match_case whole_word).
Proof.
  intros shape t shape' t' r H. unfold visit_shape in H.
  destruct (visit_optional _ (text_frame shape) t) as [[[tf t1] r1]|] eqn:Ef;
    [|discriminate].
  rewrite bind_ok in H. apply frame_counts in Ef as [-> ->].
  destruct (visit_optional _ (chart shape) _) as [[[c t2] r2]|] eqn:Ec;
    [|discriminate].
  rewrite bind_ok in H. injection H as _ <- <-.
  apply chart_counts in Ec as [-> ->].
  unfold shape_paragraphs. rewrite matches_in_app. split; [lia | done].
Qed.

Lemma slide_counts :
  counts (fun slide => matches_in (slide_paragraphs slide))
         (visit_slide replace_dict true match_case whole_word).
Proof.
  intros slide t slide' t' r H. unfold visit_slide in H.
  destruct (for_each _ (shapes slide) t) as [[[ss t1] r1]|] eqn:E;
    [|discriminate].
  rewrite bind_ok in H. injection H as _ <- <-.
  apply (for_each_counts _ _ shape_counts) in E as [-> ->].
  split; [|done]. unfold slide_paragraphs, matches_in. by rewrite sumZ_bind.
Qed.

Lemma walk_counts presentation presentation' total returned :
  walk replace_dict true match_case whole_word presentation
  = Ok (presentation', total, returned) ->
  total = match_total replace_dict match_case whole_word presentation.
Proof.
  intros H. unfold walk in H.
  destruct (for_each _ (slides presentation) 0) as [[[ss t1] r1]|] eqn:E;
    [|discriminate].
  rewrite bind_ok in H. injection H as _ <- _.
  apply (for_each_counts _ _ slide_counts) in E as [-> _].
  unfold match_total, all_paragraphs. rewrite sumZ_bind. unfold matches_in. lia.
Qed.

End levels.

(** C9, amended. With replace_all, a call of [replace_text] that returns
    true returns as its count the number of matches of every pattern of
    every key in the concatenated text of every paragraph, as the text
    was before the call; an entry that is passed over (a key or value
    that is not a string, a blank key) has no pattern and adds nothing.
    The matches are counted pattern by pattern, so one occurrence of
    {{k}} can count more than once. *)
Theorem total_is_sum_of_matches file_path replace_dict match_case whole_word
    w presentation can_write :
  disk w !! location file_path = Some (mkFile (Some presentation) can_write) ->
  (replace_text file_path replace_dict true match_case whole_word w).1.1 = true ->
  (replace_text file_path replace_dict true match_case whole_word w).1.2
  = match_total replace_dict match_case whole_word presentation.
Proof.
  intros Hfile.
  destruct (replace_text_outcome file_path replace_dict true match_case
              whole_word w)
    as [-> | [-> | (pres & pres' & total & r & Hpres & Hwalk & ->)]];
    [discriminate | discriminate |].
  intros _. rewrite Hfile in Hpres. injection Hpres as <- _. cbn [fst snd].
  by apply walk_counts in Hwalk.
Qed.

(** One occurrence of {{k}} is counted twice: by the plain pattern, which
    matches between the braces, and by the double-brace pattern. *)
Lemma total_is_sum_of_matches_witness :
  (replace_text deck_path [(PStr "k", PStr "v")] true true false
                (world_of [[mkFragment "{{k}}" 7]])).1.2
  = 2.
Proof.
  refine (eq_trans
            (total_is_sum_of_matches deck_path [(PStr "k", PStr "v")] true false
               (world_of [[mkFragment "{{k}}" 7]])
               (deck_of [[mkFragment "{{k}}" 7]]) true _ _) _).
  - reflexivity.
  - vm_compute. reflexivity.
  - vm_compute. reflexivity.
Defined.

End CountClaims.

(* ===================================================================== *)
(** ** Facts about strings *)
(* ===================================================================== *)

Module PyStrFacts.
Import PyStr ReFacts.

Lemma len_nonneg s : 0 <= len s.
Proof. unfold len. lia. Qed.

Lemma len_cons c s : len (String c s) = len s + 1.
Proof. unfold len. cbn [String.length]. lia. Qed.

Lemma len_append a b : len (a +:+ b) = len a + len b.
Proof. unfold len. rewrite length_append. lia. Qed.

Lemma prefix_append s r : String.prefix s (s +:+ r) = true.
Proof.
  induction s as [|c s IH]; [by destruct r|].
  rewrite append_cons. cbn [String.prefix]. by destruct (ascii_dec c c).
Qed.

Lemma index_at_end a s r :
  String.index (String.length a) s (a +:+ (s +:+ r)) = Some (String.length a).
Proof.
  induction a as [|c a IH].
  - change ("" +:+ (s +:+ r)) with (s +:+ r). cbn [String.length].
    destruct s as [|d s].
    + by destruct r.
    + rewrite append_cons. cbn [String.index]. rewrite <- append_cons.
      by rewrite prefix_append.
  - rewrite append_cons. cbn [String.length String.index]. by rewrite IH.
Qed.

(** [find] gives the place of a piece that starts where the search
    starts. *)
Lemma find_at_end a s r : find (a +:+ (s +:+ r)) s (len a) = len a.
Proof.
  unfold find. pose proof (len_nonneg a).
  rewrite (proj2 (Z.ltb_ge _ _)) by lia.
  change (Z.to_nat (len a)) with (Z.to_nat (Z.of_nat (String.length a))).
  rewrite Nat2Z.id, index_at_end. reflexivity.
Qed.

Lemma substring_none n s : String.substring n 0 s = "".
Proof. revert n. induction s as [|c s IH]; intros [|n]; cbn; auto. Qed.

Lemma substring_all s : String.substring 0 (String.length s) s = s.
Proof. induction s as [|c s IH]; cbn; [done | by rewrite IH]. Qed.

Lemma substring_rest a b :
  String.substring (String.length a) (String.length b) (a +:+ b) = b.
Proof.
  induction a as [|c a IH]; [apply substring_all|].
  rewrite append_cons. cbn [String.length String.substring]. exact IH.
Qed.

Lemma bound_inside s i : 0 <= i <= len s -> bound s i = Z.to_nat i.
Proof.
  intros H. unfold bound. rewrite (proj2 (Z.ltb_ge _ _)) by lia. f_equal. lia.
Qed.

Lemma slice_to_0 s : slice_to s 0 = "".
Proof.
  unfold slice_to. pose proof (len_nonneg s). rewrite bound_inside by lia.
  cbn. by destruct s.
Qed.

Lemma slice_from_len s : slice_from s (len s) = "".
Proof.
  unfold slice_from. pose proof (len_nonneg s). rewrite bound_inside by lia.
  unfold len. rewrite Nat2Z.id, Nat.sub_diag. apply substring_none.
Qed.

Lemma slice_from_append a b : slice_from (a +:+ b) (len a) = b.
Proof.
  unfold slice_from. pose proof (len_nonneg a). pose proof (len_nonneg b).
  rewrite bound_inside by (rewrite len_append; lia).
  unfold len. rewrite Nat2Z.id, length_append.
  replace (String.length a + String.length b - String.length a)%nat
    with (String.length b) by lia.
  apply substring_rest.
Qed.

End PyStrFacts.

(* ===================================================================== *)
(** ** Further properties of the text substitution *)
(* ===================================================================== *)

Module TextExtras.
Import PyStr Re Engine Walker Examples ReFacts EngineFacts WalkerFacts EngineMore
  WalkerMore PyStrFacts.



(** X2. Without replace_all the count that [replace_text] returns is at
    most the number of mapping entries that take part (string key and
    value, key not blank), whatever the document holds. *)
Theorem first_only_count_bound file_path replace_dict match_case whole_word w :
  0 <= (replace_text file_path replace_dict false match_case whole_word w).1.2
    <= Z.of_nat (length (List.filter usable replace_dict)).
Proof.
  destruct (replace_text_outcome file_path replace_dict false match_case
              whole_word w)
    as [-> | [-> | (pres & pres' & total & r & _ & Hwalk & ->)]]; cbn [fst snd];
    [lia | lia |].
  apply (walk_post _ (first_only_stay _) (first_only_then _)
           replace_dict false match_case whole_word (fun _ _ => True)
           (fun _ => I) (paragraph_first_only replace_dict match_case whole_word))
    in Hwalk as [_ HQ].
  destruct (HQ eq_refl) as [[_ ->] | [_ ?]]; lia.
Qed.

(** X3. A call that returns true never adds, drops or reorders paragraphs,
    and in every paragraph the style handles that are left are those of the
    original runs in their order; when the paragraph had no run of empty
    text, no run is dropped, so every handle is kept. *)
Theorem style_handles_are_kept file_path replace_dict replace_all match_case
    whole_word w presentation :
  disk w !! location file_path = Some (mkFile (Some presentation) true) ->
  (replace_text file_path replace_dict replace_all match_case whole_word w).1.1
  = true ->
  exists presentation',
    disk (replace_text file_path replace_dict replace_all match_case
                       whole_word w).2 !! location file_path
    = Some (mkFile (Some presentation') true)
    /\ Forall2 keeps_fonts (all_paragraphs presentation)
                           (all_paragraphs presentation').
Proof.
  intros Hfile.
  destruct (replace_text_outcome file_path replace_dict replace_all match_case
              whole_word w)
    as [-> | [-> | (pres & pres' & total & r & Hpres & Hwalk & ->)]];
    [discriminate | discriminate |].
  intros _. rewrite Hfile in Hpres. injection Hpres as <-.
  exists pres'. cbn [snd disk]. rewrite lookup_insert_eq. split; [done|].
  by apply (walk_post (fun _ _ _ => True) (fun _ => I) (fun _ _ _ _ _ _ => I)
              replace_dict replace_all match_case whole_word keeps_fonts
              keeps_fonts_refl
              (paragraph_keeps_fonts replace_dict replace_all match_case whole_word))
    in Hwalk as [HR _].
Qed.

Lemma style_handles_are_kept_witness :
  exists presentation',
    disk (replace_text deck_path acme true false true (world_of [scenario1])).2
      !! location deck_path
    = Some (mkFile (Some presentation') true)
    /\ Forall2 keeps_fonts (all_paragraphs (deck_of [scenario1]))
                           (all_paragraphs presentation').
Proof.
  apply (style_handles_are_kept deck_path acme true false true
           (world_of [scenario1]) (deck_of [scenario1])).
  - reflexivity.
  - vm_compute. reflexivity.
Defined.

(** X4. The helper's flag and count agree: the count is never negative
    and the flag is true exactly when the count is positive; and the helper
    never assigns a font. *)
Theorem helper_flag_count_fonts full_text replace_all match_case whole_word
    runs replace_dict runs' updated count :
  replace_in_text full_text replace_all match_case whole_word runs replace_dict
  = Ok (runs', (updated, count)) ->
  0 <= count /\ updated = (0 <? count) /\ map font runs' = map font runs.
Proof. apply replace_in_text_flag_and_fonts. Qed.

Lemma helper_flag_count_fonts_witness :
  0 <= 4
  /\ true = (0 <? 4)
  /\ map font
         [mkRun "Hello {{Acme}}, welcome <name>!Hello {{name}}, welcome <Acme>!"
                7 true]
     = map font [mkRun "Hello {{name}}, welcome <name>!" 7 true].
Proof.
  apply (helper_flag_count_fonts "Hello {{name}}, welcome <name>!" true false true
           [mkRun "Hello {{name}}, welcome <name>!" 7 true] acme).
  vm_compute. reflexivity.
Defined.

(** X5. Entries whose key or value is not a string, and entries whose key
    is blank once stripped, are passed over: the helper does on a mapping
    what it does on the mapping without them. *)
Theorem unusable_entries_are_skipped full_text replace_all match_case whole_word
    runs replace_dict :
  replace_in_text full_text replace_all match_case whole_word runs replace_dict
  = replace_in_text full_text replace_all match_case whole_word runs
                    (List.filter usable replace_dict).
Proof. apply replace_in_text_usable. Qed.

(** X6. A mapping that is not empty but has no usable entry passes the
    validation: on a writable, loadable file with a valid suffix the call
    opens the document, saves it as it was and returns (true, 0). *)
Theorem unusable_mapping_is_accepted file_path replace_dict replace_all
    match_case whole_word w presentation :
  disk w !! location file_path = Some (mkFile (Some presentation) true) ->
  valid_suffix file_path ->
  replace_dict <> [] ->
  List.filter usable replace_dict = [] ->
  replace_text file_path replace_dict replace_all match_case whole_word w
  = ((true, 0),
     mkWorld (disk w)
             (trace w ++ [Opened (location file_path);
                          Saved (location file_path)])).
Proof.
  intros Hfile Hsuffix Hdict Hnone.
  assert (forall p, paragraph_count replace_dict match_case whole_word p = 0)
    as Hzero.
  { intros [|f p]; [reflexivity|]. cbn [paragraph_count]. unfold text_count.
    clear Hdict. induction replace_dict as [|[k v] dict IH]; [reflexivity|].
    cbn [map]. rewrite sumZ_cons.
    destruct k as [k| |], v as [v| |]; cbn [List.filter usable] in Hnone;
      cbn [key_count]; try (by rewrite IH).
    destruct (is_empty (strip k)); [by rewrite IH | discriminate]. }
  destruct (walk_visited replace_dict replace_all match_case whole_word
              (fun p => paragraph_count replace_dict match_case whole_word p = 0)
              True
              (paragraph_visited_no_match replace_dict replace_all
                 match_case whole_word)
              presentation) as (presentation' & Hwalk & Hsame).
  { apply Forall_forall. intros p _. apply Hzero. }
  rewrite Hsame in Hwalk by done.
  assert (match_total replace_dict match_case whole_word presentation = 0) as Ht.
  { unfold match_total. induction (all_paragraphs presentation) as [|p ps IH];
      [reflexivity|]. cbn [map]. by rewrite sumZ_cons, Hzero, IH. }
  rewrite Ht in Hwalk.
  rewrite (accepted _ _ _ _ _ _ _ _ _ Hfile Hsuffix Hdict Hwalk).
  by rewrite insert_id.
Qed.

Lemma unusable_mapping_is_accepted_witness :
  replace_text deck_path [(PInt 1, PStr "one"); (PStr "  ", PStr "blank")]
               true false true (world_of [scenario1])
  = ((true, 0), saved [scenario1]).
Proof.
  apply (unusable_mapping_is_accepted deck_path
           [(PInt 1, PStr "one"); (PStr "  ", PStr "blank")] true false true
           (world_of [scenario1]) (deck_of [scenario1])).
  - reflexivity.
  - vm_compute. left.
  - discriminate.
  - reflexivity.
Defined.

(** X7. The rewriting step on a paragraph of one run and one match inside
    it: the matched stretch is replaced in place, text before and after it
    is kept, and so are the style handle and the run itself (as long as the
    new text is not empty). The run stores that text as the setter of
    [run.text] escapes it: a control character of the value or of the
    text around the match is stored as _xNNNN_. *)
Theorem one_run_one_match full_text f a b v :
  0 <= a -> a < b -> b <= len full_text ->
  slice_to full_text a +:+ v +:+ slice_from full_text b <> "" ->
  rewrite full_text [(a, b)] v [mkRun full_text f true]
  = Ok [mkRun (xml_escape (slice_to full_text a +:+ v
                           +:+ slice_from full_text b)) f true].
Proof.
  intros Ha Hab Hb Hne. unfold rewrite.
  assert (find full_text full_text 0 = 0) as Hfind.
  { pose proof (find_at_end "" full_text "") as H.
    change ("" +:+ (full_text +:+ "")) with (full_text +:+ "") in H.
    by rewrite append_empty_r in H. }
  cbn [new_runs_text text font]. rewrite Hfind. change (0 =? -1) with false.
  cbv beta iota zeta. unfold overlay. cbn [fold_left].
  destruct (a >=? 0 + len full_text) eqn:E1; [apply Z.geb_le in E1; lia|].
  destruct (b <=? 0) eqn:E2; [apply Z.leb_le in E2; lia|].
  cbn [orb]. replace (Z.max 0 (a - 0)) with a by lia.
  replace (Z.min (len full_text) (b - 0)) with b by lia.
  change ("" +:+ ?x) with x.
  destruct (slice_to full_text a +:+ v +:+ slice_from full_text b) as [|c t] eqn:Et;
    [done|].
  cbn [is_empty]. unfold update_runs.
  cbn [imap lookup list_lookup fst compose]. unfold set_text.
  cbn [remove_empty_runs text font attached].
  rewrite xml_escape_empty. reflexivity.
Qed.

(** A value with a carriage return in it. *)
Lemma one_run_one_match_witness :
  rewrite "Dear name," [(5, 9)] (String "013" "Acme") [mkRun "Dear name," 7 true]
  = Ok [mkRun "Dear _x000D_Acme," 7 true].
Proof.
  apply (one_run_one_match "Dear name," 7 5 9 (String "013" "Acme"));
    [lia | lia | | ].
  - vm_compute. discriminate.
  - vm_compute. discriminate.
Defined.

(** X8. The rewriting step on a match that starts in one run and ends in
    the next, for a replacement value that is not empty: the value is put
    into both runs, once at the end of what is left of the first and once
    at the start of what is left of the second. Each run stores its text
    as the setter of [run.text] escapes it. *)
Theorem match_across_two_runs t1 t2 f1 f2 a b v :
  0 <= a -> a < len t1 -> len t1 < b -> b <= len t1 + len t2 ->
  v <> "" ->
  rewrite (t1 +:+ t2) [(a, b)] v [mkRun t1 f1 true; mkRun t2 f2 true]
  = Ok [mkRun (xml_escape (slice_to t1 a +:+ v)) f1 true;
        mkRun (xml_escape (v +:+ slice_from t2 (b - len t1))) f2 true].
Proof.
  intros Ha Ha1 Hb1 Hb Hv. unfold rewrite.
  assert (find (t1 +:+ t2) t1 0 = 0) as Hfind1.
  { pose proof (find_at_end "" t1 t2) as H. exact H. }
  assert (find (t1 +:+ t2) t2 (0 + len t1) = len t1) as Hfind2.
  { pose proof (find_at_end t1 t2 "") as H.
    rewrite append_empty_r in H. by rewrite Z.add_0_l. }
  pose proof (len_nonneg t2) as Hl2.
  cbn [new_runs_text text font]. rewrite Hfind1. change (0 =? -1) with false.
  cbv beta iota zeta. rewrite Hfind2.
  destruct (len t1 =? -1) eqn:E0; [apply Z.eqb_eq in E0; lia|].
  unfold overlay. cbn [fold_left].
  destruct (a >=? 0 + len t1) eqn:E1; [apply Z.geb_le in E1; lia|].
  destruct (b <=? 0) eqn:E2; [apply Z.leb_le in E2; lia|].
  destruct (a >=? len t1 + len t2) eqn:E3; [apply Z.geb_le in E3; lia|].
  destruct (b <=? len t1) eqn:E4; [apply Z.leb_le in E4; lia|].
  cbn [orb]. replace (Z.max 0 (a - 0)) with a by lia.
  replace (Z.min (len t1) (b - 0)) with (len t1) by lia.
  replace (Z.max 0 (a - len t1)) with 0 by lia.
  replace (Z.min (len t2) (b - len t1)) with (b - len t1) by lia.
  rewrite slice_from_len, slice_to_0.
  assert (forall x, "" +:+ x = x) as Hnil by reflexivity.
  rewrite !Hnil, append_empty_r.
  assert (forall x y, y <> "" -> is_empty (x +:+ y) = false) as Hr.
  { intros x y Hy. destruct x; [by destruct y | reflexivity]. }
  assert (forall x y, x <> "" -> is_empty (x +:+ y) = false) as Hl.
  { intros x y Hx. by destruct x. }
  rewrite (Hr _ _ Hv), (Hl _ _ Hv).
  unfold update_runs.
  cbn [imap lookup list_lookup fst compose]. unfold set_text.
  cbn [remove_empty_runs text font attached].
  rewrite !xml_escape_empty, (Hr _ _ Hv), (Hl _ _ Hv). reflexivity.
Qed.

Lemma match_across_two_runs_witness :
  rewrite ("Dear na" +:+ "me,") [(5, 9)] "Acme"
          [mkRun "Dear na" 1 true; mkRun "me," 2 true]
  = Ok [mkRun "Dear Acme" 1 true; mkRun "Acme," 2 true].
Proof.
  apply (match_across_two_runs "Dear na" "me," 1 2 5 9 "Acme");
    [lia | by vm_compute | by vm_compute | by vm_compute | discriminate].
Defined.

Lemma rfind_absent s c : mem c s = false -> rfind s c = -1.
Proof.
  induction s as [|d s IH]; [reflexivity|]. cbn [mem rfind].
  intros [Hd Hs]%orb_false_elim. rewrite (IH Hs).
  change (-1 >=? 0) with false. cbv iota.
  by rewrite Ascii.eqb_sym, Hd.
Qed.

Lemma rfind_last stem c ext :
  mem c ext = false -> rfind (stem +:+ String c ext) c = len stem.
Proof.
  intros Hext. induction stem as [|d stem IH].
  - change ("" +:+ String c ext) with (String c ext). cbn [rfind].
    rewrite (rfind_absent _ _ Hext). change (-1 >=? 0) with false. cbv iota.
    by rewrite Ascii.eqb_refl.
  - rewrite append_cons. cbn [rfind]. rewrite IH.
    pose proof (len_nonneg stem).
    destruct (len stem >=? 0) eqn:E;
      [| rewrite Z.geb_leb in E; apply Z.leb_gt in E; lia].
    rewrite len_cons. reflexivity.
Qed.

(** X9. The test on the file name: for a name stem.ext whose ext has no
    dot, the suffix is accepted exactly when the stem is not empty and ext
    is pptx or ppt in any mix of upper and lower case. A name that is only
    an extension, such as .pptx, is rejected. *)
Theorem suffix_test loc stem ext :
  mem "." ext = false ->
  valid_suffix (mkPath loc (stem +:+ String "." ext))
  <-> stem <> "" /\ (lower ext = "pptx" \/ lower ext = "ppt").
Proof.
  intros Hext. unfold valid_suffix, suffix. cbn [name].
  rewrite (rfind_last _ _ _ Hext), len_append, len_cons.
  pose proof (len_nonneg stem) as Hs. pose proof (len_nonneg ext) as He.
  destruct stem as [|d stem].
  - change (0 <? len "") with false. cbn [andb lower].
    split; [intros H | by intros [? _]].
    repeat (apply elem_of_cons in H as [H | H]; [discriminate|]).
    by apply elem_of_nil in H.
  - rewrite (proj2 (Z.ltb_lt 0 _))
      by (rewrite ?len_cons; pose proof (len_nonneg stem); lia).
    destruct ext as [|e ext].
    + rewrite (proj2 (Z.ltb_ge _ _))
        by (rewrite ?len_cons; change (len "") with 0; lia).
      cbn [andb lower]. split; [intros H | by intros [_ [? | ?]]].
      repeat (apply elem_of_cons in H as [H | H]; [discriminate|]).
      by apply elem_of_nil in H.
    + rewrite (proj2 (Z.ltb_lt _ _))
        by (rewrite ?len_cons; pose proof (len_nonneg ext);
            pose proof (len_nonneg stem); lia).
      cbn [andb]. rewrite slice_from_append.
      change (lower (String "." (String e ext)))
        with (String "." (lower (String e ext))).
      split.
      * intros H. split; [done|].
        apply elem_of_cons in H as [H | H]; [left; congruence|].
        apply elem_of_cons in H as [H | H]; [right; congruence|].
        by apply elem_of_nil in H.
      * intros [_ [-> | ->]]; [by left | by right; left].
Qed.

Lemma suffix_test_witness :
  valid_suffix (mkPath "C:/decks/Q3.PpTx" ("Q3" +:+ String "." "PpTx"))
  <-> "Q3" <> "" /\ (lower "PpTx" = "pptx" \/ lower "PpTx" = "ppt").
Proof. apply (suffix_test "C:/decks/Q3.PpTx" "Q3" "PpTx"). reflexivity. Defined.

End TextExtras.

(* ===================================================================== *)
(** ** More about the package surgeon *)
(* ===================================================================== *)

Module SurgeonMore.
Import PyStr Surgeon EngineFacts SurgeonFacts.

Section written.
Variable now : DateTime.
Variable src_zip : Archive.
Variable updated_files : gmap string bytes.

(** The metadata that an updated entry is read back with: the time of
    the call to the even second, deflate, bit 11 for a name that is not
    ASCII, the attributes of a directory or of a plain file. *)
Definition fresh_stored (name : string) : ZipInfo :=
  mkZipInfo name (dos_time now) ZIP_DEFLATED
    (if isascii name then 0 else 2048)
    (if endswith name "/" then Z.lor (Z.shiftl 16893 16) 16
     else Z.shiftl 384 16)
    [] [].

(** The member that is written for an entry of the source: the new bytes
    under fresh metadata when the entry's name is updated, otherwise the
    entry's own metadata as the archive writer stores them, with the
    bytes that reading its name gives. *)
Definition written (item : ZipInfo) (m : Member) : Prop :=
  match updated_files !! filename item with
  | Some new_bytes =>
      m = mkMember (fresh_stored (filename item)) (Some new_bytes)
  | None =>
      exists d, read src_zip (filename item) = Ok d
                /\ m = mkMember (stored item) (Some d)
  end.

Lemma fresh_info_stored name zinfo :
  fresh_info now name = Ok zinfo -> stored zinfo = fresh_stored name.
Proof.
  intros ->%fresh_info_ok. unfold stored, fresh_stored.
  cbn [filename date_time compress_type flag_bits external_attr comment extra].
  destruct (isascii name), (endswith name "/"); reflexivity.
Qed.

(** The bytes that the rebuilt archive holds under a name. *)
Definition payload (n : string) : result bytes :=
  match updated_files !! n with
  | Some new_bytes => Ok new_bytes
  | None => read src_zip n
  end.

Lemma copy_item_written item m :
  copy_item now src_zip updated_files item = Ok m -> written item m.
Proof.
  unfold copy_item, written. destruct (updated_files !! filename item).
  - destruct (fresh_info now (filename item)) as [zinfo|] eqn:Hz;
      [|discriminate].
    intros [= <-]. by rewrite (fresh_info_stored _ _ Hz).
  - destruct (read src_zip (filename item)) as [d|]; [|discriminate].
    intros [= <-]. by exists d.
Qed.

Lemma copy_items_written items : forall done dst_zip,
  copy_items now src_zip updated_files items done = (Ok tt, dst_zip) ->
  exists ms, dst_zip = (done ++ ms)%list /\ Forall2 written items ms.
Proof.
  induction items as [|item items IH]; intros done dst H.
  - injection H as <-. exists []. by rewrite app_nil_r.
  - cbn [copy_items] in H.
    destruct (copy_item now src_zip updated_files item) as [m|] eqn:Hm;
      [|discriminate].
    destruct (IH _ _ H) as (ms & -> & Hms).
    exists (m :: ms). rewrite <- app_assoc. split; [done|].
    constructor; [by apply copy_item_written | done].
Qed.

Lemma written_name item m : written item m -> filename (info m) = filename item.
Proof.
  unfold written. destruct (updated_files !! filename item); [by intros ->|].
  by intros (d & _ & ->).
Qed.

(** The loop goes through when the clock shows a year that an archive
    can hold, no update is for the empty name, and every entry that is
    not updated can be read. *)
Lemma copy_items_succeed items : forall done,
  1980 <= year_of now <= 2107 ->
  updated_files !! "" = None ->
  Forall (fun item => updated_files !! filename item = None ->
                      exists d, read src_zip (filename item) = Ok d) items ->
  exists dst_zip,
    copy_items now src_zip updated_files items done = (Ok tt, dst_zip).
Proof.
  induction items as [|item items IH]; intros done Hyear Hnamed H;
    [by eexists|].
  inversion H as [|? ? Hitem Hitems]; subst. cbn [copy_items].
  unfold copy_item. destruct (updated_files !! filename item) eqn:E.
  - destruct (fresh_info_in_range now (filename item) Hyear) as [zinfo ->].
    { intros En. rewrite En in E. congruence. }
    rewrite bind_ok. by apply IH.
  - destruct (Hitem eq_refl) as [d ->]. rewrite bind_ok. by apply IH.
Qed.

Lemma written_payload items ms n :
  Forall2 written items ms ->
  n ∈ map filename items ->
  exists d, payload n = Ok d
            /\ n ∈ namelist ms
            /\ Forall (fun m => filename (info m) = n -> data m = Some d) ms.
Proof.
  intros H Hn. unfold payload.
  assert (exists d, payload n = Ok d) as [d Hd].
  { unfold payload.
    induction H as [|item m items ms Hw _ IH]; [by apply elem_of_nil in Hn|].
    cbn [map] in Hn. apply elem_of_cons in Hn as [-> | Hn]; [|by apply IH].
    unfold written in Hw. destruct (updated_files !! filename item); [by eexists|].
    destruct Hw as (d & -> & _). by eexists. }
  unfold payload in Hd. exists d. split; [done|]. split.
  - induction H as [|item m items ms Hw _ IH]; [by apply elem_of_nil in Hn|].
    cbn [map] in Hn. unfold namelist, infolist. cbn [map].
    apply elem_of_cons. apply elem_of_cons in Hn as [-> | Hn].
    + left. symmetry. by apply written_name.
    + right. by apply IH.
  - clear Hn. induction H as [|item m items ms Hw _ IH]; constructor; [|exact IH].
    intros E. rewrite (written_name _ _ Hw) in E. rewrite <- E in Hd.
    unfold written in Hw.
    destruct (updated_files !! filename item) as [b|].
    + subst m. cbn [data]. by injection Hd as <-.
    + destruct Hw as (d' & Hd' & ->). cbn [data].
      rewrite Hd' in Hd. by injection Hd as <-.
Qed.

End written.

(** *** Reading every selected member *)

Lemma read_all_succeeds a names : forall acc,
  Forall (fun n => exists d, read a n = Ok d) names ->
  exists extracted, read_all a names acc = Ok extracted.
Proof.
  induction names as [|n names IH]; intros acc H; [by eexists|].
  inversion H as [|? ? [d Hd] Hrest]; subst. cbn [read_all].
  rewrite Hd. by apply IH.
Qed.


End SurgeonMore.

(* ===================================================================== *)
(** ** Further properties of the package surgery *)
(* ===================================================================== *)

Module PackageExtras.
Import PyStr Surgeon Examples EngineFacts SurgeonFacts SurgeonMore.

(** X10. When the document is an archive that can be written over
    without the write breaking off, the clock shows a year between 1980
    and 2107, no update is for the empty name and every entry that is not
    updated can be read, Substitute replaces the document by an archive
    with one member per source entry, in order. An updated entry carries
    the new bytes under fresh metadata: the time of the call to the even
    second, deflate, no comment and no extra field. Every other entry
    carries the bytes that reading its name gives under its own metadata
    as the archive writer stores them: flag bits reset, external
    attributes of 0 replaced by 0o600 << 16, the rest as it was. *)
Theorem substitute_writes_each_entry now temp_path fs pptx_path src_zip
    updated_files :
  files fs !! temp_path = None ->
  temp_path <> pptx_path ->
  files fs !! pptx_path = Some (Zip src_zip) ->
  pptx_path ∉ locked fs ->
  pptx_path ∉ breaks fs ->
  1980 <= year_of now <= 2107 ->
  updated_files !! "" = None ->
  Forall (fun item => updated_files !! filename item = None ->
                      exists d, read src_zip (filename item) = Ok d)
         (infolist src_zip) ->
  exists dst_zip,
    replace_embedded_excel_files now temp_path fs pptx_path updated_files
    = mkFS (<[pptx_path := Zip dst_zip]> (files fs)) (locked fs) (breaks fs)
    /\ Forall2 (written now src_zip updated_files) (infolist src_zip) dst_zip.
Proof.
  intros Hfresh Hne Hsrc Hfree Hwhole Hyear Hnamed Hread.
  rewrite replace_embedded_excel_files_cases by done.
  unfold open_zip. rewrite Hsrc.
  destruct (copy_items_succeed now src_zip updated_files _ [] Hyear Hnamed Hread)
    as [dst_zip Hcopy].
  rewrite Hcopy. rewrite !bool_decide_false by done.
  exists dst_zip. split; [done|].
  apply copy_items_written in Hcopy as (ms & -> & Hms). exact Hms.
Qed.

(** The clock shows an odd second, and the workbook is dated with the
    even second before it. *)
Lemma substitute_writes_each_entry_witness :
  exists dst_zip,
    replace_embedded_excel_files today "tmp.pptx" (disk_of package) "deck.pptx"
      {[ "ppt/embeddings/Sheet1.xlsx" := new_workbook ]}
    = mkFS (<["deck.pptx" := Zip dst_zip]> (files (disk_of package)))
           (locked (disk_of package)) (breaks (disk_of package))
    /\ Forall2 (written today package
                  {[ "ppt/embeddings/Sheet1.xlsx" := new_workbook ]})
               (infolist package) dst_zip.
Proof.
  apply (substitute_writes_each_entry today "tmp.pptx" (disk_of package)
           "deck.pptx" package {[ "ppt/embeddings/Sheet1.xlsx" := new_workbook ]}).
  - reflexivity.
  - discriminate.
  - reflexivity.
  - apply not_elem_of_empty.
  - apply not_elem_of_empty.
  - vm_compute. split; discriminate.
  - reflexivity.
  - repeat constructor; intros _; eexists; vm_compute; reflexivity.
Defined.

(** X11. Under the same conditions, extracting again after Substitute
    gives, for every embedded workbook of the source, the new bytes when it
    was updated and the bytes it had when it was not, and gives nothing
    else. *)
Theorem substitute_then_extract now temp_path fs pptx_path src_zip updated_files :
  files fs !! temp_path = None ->
  temp_path <> pptx_path ->
  files fs !! pptx_path = Some (Zip src_zip) ->
  pptx_path ∉ locked fs ->
  pptx_path ∉ breaks fs ->
  1980 <= year_of now <= 2107 ->
  updated_files !! "" = None ->
  Forall (fun item => updated_files !! filename item = None ->
                      exists d, read src_zip (filename item) = Ok d)
         (infolist src_zip) ->
  exists extracted,
    extract_embedded_excel_files
      (replace_embedded_excel_files now temp_path fs pptx_path updated_files)
      pptx_path
    = Ok extracted
    /\ (forall n, n ∈ namelist src_zip -> is_embedded_excel n = true ->
          exists d, payload src_zip updated_files n = Ok d
                    /\ extracted !! n = Some d)
    /\ (forall n, n ∉ namelist src_zip \/ is_embedded_excel n = false ->
          extracted !! n = None).
Proof.
  intros Hfresh Hne Hsrc Hfree Hwhole Hyear Hnamed Hread.
  rewrite replace_embedded_excel_files_cases by done.
  unfold open_zip at 1. rewrite Hsrc.
  destruct (copy_items_succeed now src_zip updated_files _ [] Hyear Hnamed Hread)
    as [dst_zip Hcopy].
  rewrite Hcopy. rewrite !bool_decide_false by done.
  apply copy_items_written in Hcopy as (ms & -> & Hw). cbn [app].
  rename ms into dst_zip.
  assert (namelist dst_zip = namelist src_zip) as Hnames.
  { unfold namelist at 2. clear -Hw. induction Hw as [|item m items ms H _ IH];
      [reflexivity|].
    unfold namelist, infolist in *. cbn [map].
    by rewrite (written_name _ _ _ _ _ H), IH. }
  assert (forall n, n ∈ namelist src_zip ->
            exists d, payload src_zip updated_files n = Ok d
                      /\ read dst_zip n = Ok d) as Hpay.
  { intros n Hn.
    destruct (written_payload now src_zip updated_files _ _ n Hw Hn)
      as (d & Hd & Hin & Hall).
    exists d. split; [done|]. by apply read_present. }
  unfold extract_embedded_excel_files, open_zip. cbn [files].
  rewrite lookup_insert_eq, bind_ok, Hnames.
  destruct (read_all_succeeds dst_zip
              (filter (fun f => is_embedded_excel f = true) (namelist src_zip)) ∅)
    as [extracted Hex].
  { apply Forall_forall. intros n [_ Hn]%list_elem_of_filter.
    destruct (Hpay n Hn) as (d & _ & Hd). eauto. }
  exists extracted. split; [done|].
  apply read_all_lookup in Hex as [Hin Hout]. split.
  - intros n Hn Hsel. destruct (Hpay n Hn) as (d & Hd & Hr).
    exists d. split; [done|].
    destruct (Hin n) as (d' & Hd' & Hu); [by apply list_elem_of_filter|].
    rewrite Hr in Hd'. by injection Hd' as <-.
  - intros n Hn. rewrite Hout; [done|].
    intros [Hsel Hin']%list_elem_of_filter. destruct Hn; congruence.
Qed.

Lemma substitute_then_extract_witness :
  exists extracted,
    extract_embedded_excel_files
      (replace_embedded_excel_files today "tmp.pptx" (disk_of package) "deck.pptx"
         {[ "ppt/embeddings/Sheet1.xlsx" := new_workbook ]})
      "deck.pptx"
    = Ok extracted
    /\ (forall n, n ∈ namelist package -> is_embedded_excel n = true ->
          exists d,
            payload package {[ "ppt/embeddings/Sheet1.xlsx" := new_workbook ]} n
            = Ok d
            /\ extracted !! n = Some d)
    /\ (forall n, n ∉ namelist package \/ is_embedded_excel n = false ->
          extracted !! n = None).
Proof.
  apply (substitute_then_extract today "tmp.pptx" (disk_of package) "deck.pptx"
           package {[ "ppt/embeddings/Sheet1.xlsx" := new_workbook ]}).
  - reflexivity.
  - discriminate.
  - reflexivity.
  - apply not_elem_of_empty.
  - apply not_elem_of_empty.
  - vm_compute. split; discriminate.
  - reflexivity.
  - repeat constructor; intros _; eexists; vm_compute; reflexivity.
Defined.



(** X21. Whatever goes wrong, [replace_embedded_excel_files] leaves no
    temporary file and touches no file but the document. The document
    itself is left exactly as it was unless the source opened, every
    member was written to the temporary file and the document could be
    opened for writing; it then holds the new archive, or only the
    leading part of it when the write broke off. *)
Theorem untouched_unless_the_copy_began now temp_path fs pptx_path updated_files :
  files fs !! temp_path = None ->
  temp_path <> pptx_path ->
  files (replace_embedded_excel_files now temp_path fs pptx_path updated_files)
    !! temp_path = None
  /\ (forall p,
        p <> pptx_path ->
        files (replace_embedded_excel_files now temp_path fs pptx_path
                 updated_files) !! p
        = files fs !! p)
  /\ (replace_embedded_excel_files now temp_path fs pptx_path updated_files = fs
      \/ exists src_zip dst_zip,
           open_zip fs pptx_path = Ok src_zip
           /\ copy_items now src_zip updated_files (infolist src_zip) []
              = (Ok tt, dst_zip)
           /\ (pptx_path ∉ locked fs)
           /\ files (replace_embedded_excel_files now temp_path fs pptx_path
                       updated_files) !! pptx_path
              = Some (if bool_decide (pptx_path ∈ breaks fs)
                      then Partial (Zip dst_zip) else Zip dst_zip)).
Proof.
  intros Hfresh Hne. rewrite replace_embedded_excel_files_cases by done.
  destruct (open_zip fs pptx_path) as [src_zip|e] eqn:Hopen;
    [|split_and!; [done | done | by left]].
  destruct (copy_items now src_zip updated_files (infolist src_zip) [])
    as [[[]|e] dst_zip] eqn:Hcopy; [|split_and!; [done | done | by left]].
  case_bool_decide as Hlock; [split_and!; [done | done | by left]|].
  assert (exists src_zip' dst_zip' : Archive,
            Ok src_zip = Ok src_zip'
            /\ copy_items now src_zip' updated_files (infolist src_zip') []
               = (Ok tt, dst_zip')
            /\ (pptx_path ∉ locked fs) /\ dst_zip' = dst_zip)
    as (src_zip' & dst_zip' & Hs & Hc & Hl & Hd) by (by exists src_zip, dst_zip).
  case_bool_decide as Hbreak; cbn [files].
  - split_and!; [by rewrite lookup_insert_ne | |].
    + intros p Hp. by rewrite lookup_insert_ne.
    + right. exists src_zip', dst_zip'. rewrite lookup_insert_eq. by subst.
  - split_and!; [by rewrite lookup_insert_ne | |].
    + intros p Hp. by rewrite lookup_insert_ne.
    + right. exists src_zip', dst_zip'. rewrite lookup_insert_eq. by subst.
Qed.

Lemma untouched_unless_the_copy_began_witness :
  files (replace_embedded_excel_files today "tmp.pptx" (disk_of damaged)
           "deck.pptx" {[ "ppt/embeddings/Sheet1.xlsx" := new_workbook ]})
    !! "tmp.pptx" = None
  /\ (forall p,
        p <> "deck.pptx" ->
        files (replace_embedded_excel_files today "tmp.pptx" (disk_of damaged)
                 "deck.pptx" {[ "ppt/embeddings/Sheet1.xlsx" := new_workbook ]})
          !! p
        = files (disk_of damaged) !! p)
  /\ (replace_embedded_excel_files today "tmp.pptx" (disk_of damaged)
        "deck.pptx" {[ "ppt/embeddings/Sheet1.xlsx" := new_workbook ]}
      = disk_of damaged
      \/ exists src_zip dst_zip,
           open_zip (disk_of damaged) "deck.pptx" = Ok src_zip
           /\ copy_items today src_zip
                {[ "ppt/embeddings/Sheet1.xlsx" := new_workbook ]}
                (infolist src_zip) []
              = (Ok tt, dst_zip)
           /\ ("deck.pptx" ∉ locked (disk_of damaged))
           /\ files (replace_embedded_excel_files today "tmp.pptx"
                       (disk_of damaged) "deck.pptx"
                       {[ "ppt/embeddings/Sheet1.xlsx" := new_workbook ]})
                !! "deck.pptx"
              = Some (if bool_decide ("deck.pptx" ∈ breaks (disk_of damaged))
                      then Partial (Zip dst_zip) else Zip dst_zip)).
Proof.
  apply (untouched_unless_the_copy_began today "tmp.pptx" (disk_of damaged)
           "deck.pptx" {[ "ppt/embeddings/Sheet1.xlsx" := new_workbook ]});
    [reflexivity | discriminate].
Defined.

(** X13. The paths that [get_embedded_excel_paths] lists are the names
    under which [extract_embedded_excel_files] returns bytes, and each of
    them starts with ppt/embeddings/ and ends with .xlsx. *)
Theorem paths_are_the_extracted_names fs pptx_path paths extracted :
  get_embedded_excel_paths fs pptx_path = Ok paths ->
  extract_embedded_excel_files fs pptx_path = Ok extracted ->
  (forall n, is_Some (extracted !! n) <-> n ∈ paths)
  /\ Forall (fun f => startswith f "ppt/embeddings/" = true
                      /\ endswith f ".xlsx" = true) paths.
Proof.
  unfold get_embedded_excel_paths, extract_embedded_excel_files.
  destruct (open_zip fs pptx_path) as [zip_file|]; [|discriminate].
  rewrite !bind_ok. intros [= <-] Hex.
  apply read_all_lookup in Hex as [Hin Hout]. split.
  - intros n. split.
    + intros Hn. destruct (decide (n ∈ filter (fun f => is_embedded_excel f = true)
                                              (namelist zip_file))) as [|Hnot];
        [done|].
      rewrite (Hout _ Hnot), lookup_empty in Hn. by destruct Hn.
    + intros Hn. destruct (Hin _ Hn) as (d & _ & ->). eauto.
  - apply Forall_forall. intros f [Hf _]%list_elem_of_filter.
    unfold is_embedded_excel in Hf. by apply andb_true_iff in Hf.
Qed.

Lemma paths_are_the_extracted_names_witness :
  (forall n,
     is_Some (({[ "ppt/embeddings/Sheet1.xlsx" := workbook ]} : gmap string bytes)
                !! n)
     <-> n ∈ ["ppt/embeddings/Sheet1.xlsx"])
  /\ Forall (fun f => startswith f "ppt/embeddings/" = true
                      /\ endswith f ".xlsx" = true)
            ["ppt/embeddings/Sheet1.xlsx"].
Proof.
  apply (paths_are_the_extracted_names (disk_of package) "deck.pptx").
  - vm_compute. reflexivity.
  - vm_compute. reflexivity.
Defined.

End PackageExtras.

(* ===================================================================== *)
(** ** The refresh bridge: [refresh_all_charts_in_pptx] *)
(* ===================================================================== *)

Module Bridge.
Import Surgeon.
Local Open Scope list_scope.

(** The calls made to COM and to PowerPoint, in the order of the source. *)
Inductive call :=
| CoInitialize
| Dispatch
| SetVisible
| Open (path : string)
| Activate
| RefreshChart
| Save
| Close
| Quit
| CoUninitialize.

#[global] Instance call_eq_dec : EqDecision call.
Proof. solve_decision. Defined.

(** A shape as PowerPoint shows it, and whether its two chart calls go
    through. *)
Record ComShape := mkComShape {
  HasChart : bool;
  activate_ok : bool;
  refresh_ok : bool
}.

(** How PowerPoint answers: which of the calls that can fail go through,
    and the slides of the presentation it opens. [CoInitialize], setting
    [Visible] and [CoUninitialize] are taken not to raise. *)
Record Office := mkOffice {
  dispatch_ok : bool;
  open_ok : bool;
  com_slides : list (list ComShape);
  save_ok : bool;
  close_ok : bool;
  quit_ok : bool
}.

(** A computation that logs its calls; [None] is a raised exception. *)
Definition Com (A : Type) : Type := list call -> option A * list call.

#[local] Instance Com_ret : MRet Com := fun _ a log => (Some a, log).

#[local] Instance Com_bind : MBind Com := fun _ _ f m log =>
  match m log with
  | (Some a, log') => f a log'
  | (None, log') => (None, log')
  end.

(** One call: it is logged, and raises when it does not go through. *)
Definition invoke (c : call) (ok : bool) : Com unit :=
  fun log => (if ok then Some tt else None, log ++ [c]).

(** The inner [try]: whatever the two chart calls do, the loop goes on. *)
Definition refresh_chart (shape : ComShape) : Com unit :=
  fun log =>
    let '(_, log') :=
      (_ ← invoke Activate (activate_ok shape);
       invoke RefreshChart (refresh_ok shape)) log in
    (Some tt, log').

Fixpoint for_shapes (shapes : list ComShape) : Com unit :=
  match shapes with
  | [] => mret tt
  | shape :: rest =>
      _ ← (if HasChart shape then refresh_chart shape else mret tt);
      for_shapes rest
  end.

Fixpoint for_slides (slides : list (list ComShape)) : Com unit :=
  match slides with
  | [] => mret tt
  | slide :: rest => _ ← for_shapes slide; for_slides rest
  end.

(** The outer [try] block. *)
Definition refresh_body (office : Office) (pptx_path : string) (save : bool)
    : Com unit :=
  _ ← invoke CoInitialize true;
  _ ← invoke Dispatch (dispatch_ok office);
  _ ← invoke SetVisible true;
  _ ← invoke (Open pptx_path) (open_ok office);
  _ ← for_slides (com_slides office);
  _ ← (if save then invoke Save (save_ok office) else mret tt);
  _ ← invoke Close (close_ok office);
  _ ← invoke Quit (quit_ok office);
  invoke CoUninitialize true.

(** [os.path.isfile(pptx_path)] *)
Definition isfile (fs : FS) (path : string) : bool :=
  bool_decide (is_Some (files fs !! path)).

(** The function returns its boolean; the calls it made are returned next
    to it. What PowerPoint writes when it saves is not modelled. *)
Definition refresh_all_charts_in_pptx (office : Office) (fs : FS)
    (pptx_path : string) (save : bool) : bool * list call :=
  if negb (isfile fs pptx_path) then (false, [])
  else
    match refresh_body office pptx_path save [] with
    | (Some _, log) => (true, log)
    | (None, log) => (false, log)
    end.

(** The chart calls that a presentation gives rise to. *)
Definition chart_calls (shape : ComShape) : list call :=
  if HasChart shape
  then Activate :: (if activate_ok shape then [RefreshChart] else [])
  else [].

Definition all_chart_calls (slides : list (list ComShape)) : list call :=
  slides ≫= (fun slide => slide ≫= chart_calls).

End Bridge.

Module BridgeFacts.
Import Surgeon Bridge.
Local Open Scope list_scope.

Lemma for_shapes_log shapes log :
  for_shapes shapes log = (Some tt, log ++ (shapes ≫= chart_calls)).
Proof.
  revert log. induction shapes as [|shape rest IH]; intros log.
  - cbn. by rewrite app_nil_r.
  - cbn [for_shapes]. unfold mbind at 1, Com_bind. rewrite bind_cons, app_assoc.
    unfold chart_calls at 1. destruct (HasChart shape).
    + unfold refresh_chart, mbind, Com_bind, invoke.
      destruct (activate_ok shape); cbv beta iota zeta.
      * rewrite IH. by rewrite <- !app_assoc.
      * rewrite IH. reflexivity.
    + cbn. rewrite IH, app_nil_r. reflexivity.
Qed.

Lemma for_slides_log slides log :
  for_slides slides log = (Some tt, log ++ all_chart_calls slides).
Proof.
  unfold all_chart_calls. revert log.
  induction slides as [|slide rest IH]; intros log.
  - cbn. by rewrite app_nil_r.
  - cbn [for_slides]. unfold mbind at 1, Com_bind.
    rewrite for_shapes_log, IH, bind_cons. by rewrite <- app_assoc.
Qed.

(** The log of the outer block, stage by stage. *)
Lemma refresh_body_log office pptx_path save :
  refresh_body office pptx_path save []
  = if negb (dispatch_ok office) then (None, [CoInitialize; Dispatch])
    else if negb (open_ok office)
      then (None, [CoInitialize; Dispatch; SetVisible; Open pptx_path])
    else
      let opened :=
        [CoInitialize; Dispatch; SetVisible; Open pptx_path]
        ++ all_chart_calls (com_slides office) in
      let saved := if save then opened ++ [Save] else opened in
      if save && negb (save_ok office) then (None, saved)
      else if negb (close_ok office) then (None, saved ++ [Close])
      else if negb (quit_ok office) then (None, saved ++ [Close; Quit])
      else (Some tt, saved ++ [Close; Quit; CoUninitialize]).
Proof.
  unfold refresh_body, mbind, Com_bind, invoke.
  destruct (dispatch_ok office); [|reflexivity].
  destruct (open_ok office); [|reflexivity].
  cbn [app negb]. rewrite for_slides_log. cbv zeta.
  destruct save; cbn [andb].
  - destruct (save_ok office); [|reflexivity]. cbn [negb].
    destruct (close_ok office); [|reflexivity].
    destruct (quit_ok office); cbn [negb app]; rewrite <- ?app_assoc;
      cbn [app]; reflexivity.
  - cbn [mret Com_ret].
    destruct (close_ok office); [|reflexivity].
    destruct (quit_ok office); cbn [negb app]; rewrite <- ?app_assoc;
      cbn [app]; reflexivity.
Qed.

End BridgeFacts.

Module BridgeExtras.
Import Surgeon Bridge BridgeFacts Examples.
Local Open Scope list_scope.

(** X14. The refresh reports success exactly when the file exists and
    Dispatch, Open, Close and Quit go through, and Save too when saving is
    asked for. Whether a chart could be activated or refreshed has no part
    in the result. *)
Theorem refresh_result office fs pptx_path save :
  (refresh_all_charts_in_pptx office fs pptx_path save).1
  = isfile fs pptx_path && dispatch_ok office && open_ok office
    && (negb save || save_ok office) && close_ok office && quit_ok office.
Proof.
  unfold refresh_all_charts_in_pptx.
  destruct (isfile fs pptx_path); [|reflexivity].
  cbn [negb andb]. rewrite refresh_body_log.
  destruct (dispatch_ok office); [|reflexivity].
  destruct (open_ok office); [|reflexivity].
  cbv zeta. cbn [negb andb].
  destruct save, (save_ok office), (close_ok office), (quit_ok office);
    reflexivity.
Qed.

Lemma chart_calls_only slides c :
  c ∈ all_chart_calls slides -> c = Activate \/ c = RefreshChart.
Proof.
  unfold all_chart_calls.
  intros (slide & Hc & _)%list_elem_of_bind.
  apply list_elem_of_bind in Hc as (shape & Hc & _).
  unfold chart_calls in Hc.
  destruct (HasChart shape); [|by apply elem_of_nil in Hc].
  apply elem_of_cons in Hc as [-> | Hc]; [by left|].
  destruct (activate_ok shape); [|by apply elem_of_nil in Hc].
  apply list_elem_of_singleton in Hc as ->. by right.
Qed.

(** X15. COM is initialised exactly when the file exists, and it is
    uninitialised exactly when the function returns true: after any failure
    past the file test, COM is left initialised. Quit is called exactly
    when the file exists and Dispatch, Open, Save (when saving is asked
    for) and Close have gone through: after a failure of one of them, the
    application is not quit. *)
Theorem com_is_released_only_on_success office fs pptx_path save :
  let outcome := refresh_all_charts_in_pptx office fs pptx_path save in
  (CoInitialize ∈ outcome.2 <-> isfile fs pptx_path = true)
  /\ (CoUninitialize ∈ outcome.2 <-> outcome.1 = true)
  /\ (Quit ∈ outcome.2
      <-> isfile fs pptx_path && dispatch_ok office && open_ok office
          && (negb save || save_ok office) && close_ok office = true).
Proof.
  intros outcome. subst outcome. unfold refresh_all_charts_in_pptx.
  pose proof (chart_calls_only (com_slides office) CoInitialize) as Hinit.
  pose proof (chart_calls_only (com_slides office) CoUninitialize) as Hrelease.
  pose proof (chart_calls_only (com_slides office) Quit) as Hquit.
  destruct (isfile fs pptx_path); cbn [negb];
    [| cbn [fst snd]; rewrite !elem_of_nil; intuition discriminate].
  rewrite refresh_body_log.
  destruct (dispatch_ok office), (open_ok office), save, (save_ok office),
    (close_ok office), (quit_ok office);
    cbn [negb andb fst snd]; cbv zeta;
    rewrite ?elem_of_app, ?elem_of_cons, ?elem_of_nil;
    intuition (try discriminate; auto).
Qed.

Definition is_activate (c : call) : bool :=
  match c with Activate => true | _ => false end.

Lemma activations_of_charts slides :
  length (List.filter is_activate (all_chart_calls slides))
  = length (List.filter HasChart (concat slides)).
Proof.
  unfold all_chart_calls. induction slides as [|slide slides IH]; [reflexivity|].
  rewrite bind_cons. cbn [concat]. rewrite !List.filter_app, !length_app, IH.
  f_equal. clear IH. induction slide as [|shape slide IH]; [reflexivity|].
  rewrite bind_cons, List.filter_app, length_app, IH. cbn [List.filter].
  unfold chart_calls. destruct (HasChart shape); [|reflexivity].
  by destruct (activate_ok shape).
Qed.

(** X16. Once the presentation is open, every shape that has a chart is
    activated, whatever happens to the charts before it and to the calls
    after the loop: the number of Activate calls is the number of chart
    shapes. *)
Theorem every_chart_is_attempted office fs pptx_path save :
  isfile fs pptx_path = true ->
  dispatch_ok office = true ->
  open_ok office = true ->
  length (List.filter is_activate
            (refresh_all_charts_in_pptx office fs pptx_path save).2)
  = length (List.filter HasChart (concat (com_slides office))).
Proof.
  intros Hfile Hd Ho. unfold refresh_all_charts_in_pptx.
  rewrite Hfile. cbn [negb]. rewrite refresh_body_log, Hd, Ho. cbn [negb].
  cbv zeta. rewrite <- activations_of_charts.
  assert (forall tail,
            List.filter is_activate tail = [] ->
            length (List.filter is_activate
                      ((if save
                        then ([CoInitialize; Dispatch; SetVisible; Open pptx_path]
                              ++ all_chart_calls (com_slides office)) ++ [Save]
                        else [CoInitialize; Dispatch; SetVisible; Open pptx_path]
                             ++ all_chart_calls (com_slides office)) ++ tail))
            = length (List.filter is_activate
                        (all_chart_calls (com_slides office)))) as Hshape.
  { intros tail Ht. rewrite List.filter_app, Ht, app_nil_r.
    destruct save; rewrite ?List.filter_app; cbn [List.filter is_activate app];
      by rewrite ?app_nil_r. }
  assert (forall l : list call, l = l ++ []) as Hnil
    by (intros; by rewrite app_nil_r).
  destruct (save && negb (save_ok office)); cbn [snd].
  { rewrite (Hnil (if save then _ else _)). by apply Hshape. }
  destruct (close_ok office); cbn [negb snd]; [|by apply Hshape].
  destruct (quit_ok office); cbn [negb snd]; by apply Hshape.
Qed.

Lemma every_chart_is_attempted_witness :
  length (List.filter is_activate
            (refresh_all_charts_in_pptx
               (mkOffice true true
                  [[mkComShape true false true; mkComShape false true true];
                   [mkComShape true true false]]
                  true true false)
               (disk_of package) "deck.pptx" true).2)
  = 2%nat.
Proof.
  apply (every_chart_is_attempted
           (mkOffice true true
              [[mkComShape true false true; mkComShape false true true];
               [mkComShape true true false]]
              true true false)
           (disk_of package) "deck.pptx" true); reflexivity.
Defined.

End BridgeExtras.

(* ===================================================================== *)
(** ** The older entry point: [replace_text_old] *)
(* ===================================================================== *)

Module Old.
Import PyStr Engine Walker.

#[local] Existing Instance IO_ret.
#[local] Existing Instance IO_bind.

Section replace_text_old.

(** The two functions of [re] that the body calls, with the pattern, the
    text and whether [re.IGNORECASE] is set: [re.subn] (with the
    replacement) gives the new text and the number of replacements,
    [re.search] the first match if there is one. The key is handed to
    them as a pattern, unescaped unless [whole_word] is set, so they are
    taken as the library provides them. *)
Variable subn : string -> string -> string -> bool -> result (string * Z).
Variable search : string -> string -> bool -> result (option Re.Match).

Variable replace_dict : Dict.
Variables replace_all match_case whole_word : bool.

(** The loop over the mapping for one run: the text so far, the
    replacements made in the run and in the file. *)
Fixpoint for_items (items : Dict) (new_text : string)
    (run_replacements total_replacements : Z) : result (string * Z * Z) :=
  match items with
  | [] => Ok (new_text, run_replacements, total_replacements)
  | (PStr old_text, PStr new_text_value) :: rest =>
      let ignorecase := negb match_case in
      let pattern_text :=
        if whole_word then "\b" +:+ Re.escape old_text +:+ "\b" else old_text in
      '(new_text, count) ←
        (if replace_all
         then subn pattern_text new_text_value new_text ignorecase
         else
           m ← search pattern_text new_text ignorecase;
           match m with
           | Some (m_start, m_end) =>
               if run_replacements =? 0
               then Ok (slice_to new_text m_start +:+ new_text_value
                        +:+ slice_from new_text m_end, 1)
               else Ok (new_text, 0)
           | None => Ok (new_text, 0)
           end);
      let run_replacements := run_replacements + count in
      let total_replacements := total_replacements + count in
      if negb replace_all && (run_replacements >? 0)
      then Ok (new_text, run_replacements, total_replacements)
      else for_items rest new_text run_replacements total_replacements
  | _ :: rest => for_items rest new_text run_replacements total_replacements
  end.

(** The body of [for run in paragraph.runs]. *)
Definition visit_run (run : Fragment) (total_replacements : Z)
    : result (Fragment * Z * bool) :=
  if is_empty (f_text run) then Ok (run, total_replacements, false)
  else
    let original_text := f_text run in
    '(new_text, _, total_replacements) ←
      for_items replace_dict original_text 0 total_replacements;
    let run :=
      if negb (String.eqb new_text original_text)
      then mkFragment new_text (f_font run)
      else run in
    Ok (run, total_replacements,
        negb replace_all && (total_replacements >? 0)).

Definition visit_paragraph (p : Paragraph) (total : Z)
    : result (Paragraph * Z * bool) :=
  for_each visit_run p total.

Definition visit_text_frame (tf : TextFrame) (total : Z)
    : result (TextFrame * Z * bool) :=
  '(ps, total, returned) ← for_each visit_paragraph (paragraphs tf) total;
  Ok (mkTextFrame ps, total, returned).

(** A shape without a text frame is passed over; charts are not looked
    at. *)
Definition visit_shape (shape : Shape) (total : Z)
    : result (Shape * Z * bool) :=
  '(tf, total, returned) ←
    visit_optional visit_text_frame (text_frame shape) total;
  Ok (mkShape tf (chart shape), total, returned).

Definition visit_slide (slide : Slide) (total : Z)
    : result (Slide * Z * bool) :=
  '(ss, total, returned) ← for_each visit_shape (shapes slide) total;
  Ok (mkSlide ss, total, returned).

Definition walk (presentation : Presentation)
    : result (Presentation * Z * bool) :=
  '(ss, total, returned) ← for_each visit_slide (slides presentation) 0;
  Ok (mkPresentation ss, total, returned).

(** The [try] block. *)
Definition replace_text_old_body (file_path : Path) : IO (bool * Z) :=
  found ← path_exists file_path;
  if negb found
     || negb (bool_decide (lower (suffix file_path) ∈ [".pptx"; ".ppt"]))
  then mret (false, 0)
  else
    presentation ← load file_path;
    '(presentation, total_replacements, returned) ← lift (walk presentation);
    if (returned : bool) then
      _ ← save presentation file_path;
      mret (true, total_replacements)
    else
      _ ← save presentation file_path;
      mret (true, total_replacements).

End replace_text_old.

Definition replace_text_old
    (subn : string -> string -> string -> bool -> result (string * Z))
    (search : string -> string -> bool -> result (option Re.Match))
    (file_path : Path) (replace_dict : Dict)
    (replace_all match_case whole_word : bool) (w : World)
    : (bool * Z) * World :=
  match replace_text_old_body subn search replace_dict replace_all match_case
                              whole_word file_path w with
  | (Ok r, w') => (r, w')
  | (Raise _, w') => ((false, 0), w')
  end.

(** The text frames of a presentation, which are all that the old
    traversal visits. *)
Definition framed_paragraphs (presentation : Presentation) : list Paragraph :=
  slides presentation ≫= (fun slide =>
    shapes slide ≫= (fun shape => frame_paragraphs (text_frame shape))).

End Old.

Module OldFacts.
Import PyStr Engine Walker EngineFacts WalkerMore Old.

(** What the old traversal keeps of a shape: the paragraphs of its text
    frame run by run, and its chart as it is. *)
Definition same_frames (R : Fragment -> Fragment -> Prop) (s s' : Shape) : Prop :=
  Forall2 (Forall2 R) (frame_paragraphs (text_frame s))
                      (frame_paragraphs (text_frame s'))
  /\ chart s' = chart s.

Definition same_slides (R : Fragment -> Fragment -> Prop)
    (p p' : Presentation) : Prop :=
  Forall2 (fun s s' => Forall2 (same_frames R) (shapes s) (shapes s'))
          (slides p) (slides p').

Section calls.
Variable subn : string -> string -> string -> bool -> result (string * Z).
Variable search : string -> string -> bool -> result (option Re.Match).
Variable replace_dict : Dict.
Variables match_case whole_word : bool.

(** Without [replace_all] the loop over the mapping stops at the first
    key that is found. *)
Lemma for_items_first items : forall new_text total new_text' run' total',
  for_items subn search false match_case whole_word items new_text 0 total
  = Ok (new_text', run', total') ->
  (run' = 0 /\ total' = total) \/ (run' = 1 /\ total' = total + 1).
Proof.
  induction items as [|[k v] items IH]; intros txt t txt' r' t' H.
  - injection H as _ <- <-. by left.
  - destruct k as [old_text| |]; destruct v as [value| |];
      cbn [for_items] in H; try by apply IH in H.
    cbn [negb andb] in H.
    destruct (search _ txt (negb match_case)) as [m|] eqn:Es; [|discriminate].
    rewrite bind_ok in H. destruct m as [[m_start m_end]|].
    + cbn [Z.eqb] in H. rewrite bind_ok in H.
      change (0 + 1 >? 0) with true in H. cbn iota in H.
      injection H as _ <- <-. right. split; lia.
    + rewrite bind_ok in H. change (0 + 0 >? 0) with false in H.
      cbn iota in H. rewrite !Z.add_0_r in H. by apply IH in H.
Qed.

Section levels.
Variable replace_all : bool.
Variable Q : Z -> Z -> bool -> Prop.
Hypothesis Q_stay : forall t, Q t t false.
Hypothesis Q_then : forall t t1 t2 r, Q t t1 false -> Q t1 t2 r -> Q t t2 r.
Variable R : Fragment -> Fragment -> Prop.
Hypothesis R_refl : forall f, R f f.

Hypothesis run_post :
  post R Q (visit_run subn search replace_dict replace_all match_case whole_word).

Lemma old_text_frame_post :
  post (fun tf tf' => Forall2 (Forall2 R) (paragraphs tf) (paragraphs tf')) Q
       (visit_text_frame subn search replace_dict replace_all match_case
                         whole_word).
Proof.
  intros tf t tf' t' r H. unfold visit_text_frame in H.
  destruct (for_each _ (paragraphs tf) t) as [[[ps t1] r1]|] eqn:E;
    [|discriminate].
  rewrite bind_ok in H. injection H as <- <- <-.
  apply (for_each_post Q Q_stay Q_then (Forall2 R)) in E; [done | |].
  - intros p. by apply Forall2_same.
  - by apply for_each_post.
Qed.

Lemma old_shape_post :
  post (same_frames R) Q
       (visit_shape subn search replace_dict replace_all match_case whole_word).
Proof.
  intros shape t shape' t' r H. unfold visit_shape in H.
  destruct (visit_optional _ (text_frame shape) t) as [[[tf t1] r1]|] eqn:E;
    [|discriminate].
  rewrite bind_ok in H. injection H as <- <- <-.
  apply (optional_post Q Q_stay _ _ old_text_frame_post) in E as [Ho HQ].
  split; [|done]. split; [|done]. cbn [text_frame].
  destruct Ho; [assumption | constructor].
Qed.

Lemma old_walk_post presentation presentation' total returned :
  walk subn search replace_dict replace_all match_case whole_word presentation
  = Ok (presentation', total, returned) ->
  same_slides R presentation presentation' /\ Q 0 total returned.
Proof.
  intros H. unfold walk in H.
  destruct (for_each _ (slides presentation) 0) as [[[ss t1] r1]|] eqn:E;
    [|discriminate].
  rewrite bind_ok in H. injection H as <- <- <-.
  apply (for_each_post Q Q_stay Q_then
           (fun s s' => Forall2 (same_frames R) (shapes s) (shapes s')))
    in E; [done | |].
  - intros s. apply Forall2_same. intros shape. split; [|done].
    apply Forall2_same. intros p. by apply Forall2_same.
  - intros slide t slide' t' r H. unfold visit_slide in H.
    destruct (for_each _ (shapes slide) t) as [[[shs t2] r2]|] eqn:Es;
      [|discriminate].
    rewrite bind_ok in H. injection H as <- <- <-.
    apply (for_each_post Q Q_stay Q_then (same_frames R)) in Es;
      [done | | exact old_shape_post].
    intros shape. split; [|done].
    apply Forall2_same. intros p. by apply Forall2_same.
Qed.

End levels.

(** A run keeps its style handle, whatever is done to its text. *)
Lemma run_keeps_font replace_all :
  post (fun f f' => f_font f' = f_font f) (fun _ _ _ => True)
       (visit_run subn search replace_dict replace_all match_case whole_word).
Proof.
  intros f t f' t' r H. split; [|done]. unfold visit_run in H.
  destruct (is_empty (f_text f)); [by injection H as <- _ _|].
  destruct (for_items _ _ _ _ _ _ _ _ _) as [[[txt rr] t1]|]; [|discriminate].
  rewrite bind_ok in H. injection H as <- _ _.
  by destruct (negb _).
Qed.

(** Without [replace_all] a run counts at most one replacement and
    returns when it has one. *)
Lemma run_first_only :
  post (fun _ _ => True) (first_only 1)
       (visit_run subn search replace_dict false match_case whole_word).
Proof.
  intros f t f' t' r H. split; [done|]. intros ->. unfold visit_run in H.
  destruct (is_empty (f_text f)); [injection H as _ <- <-; by left|].
  destruct (for_items _ _ _ _ _ _ _ _ _) as [[[txt rr] t1]|] eqn:E;
    [|discriminate].
  rewrite bind_ok in H. injection H as _ <- <-.
  apply for_items_first in E as [[_ ->] | [_ ->]]; [by left | right].
  split; [reflexivity | lia].
Qed.

(** The outcomes of a call. *)
Lemma replace_text_old_outcome file_path replace_all w :
  replace_text_old subn search file_path replace_dict replace_all match_case
                   whole_word w
  = ((false, 0), w)
  \/ replace_text_old subn search file_path replace_dict replace_all
                      match_case whole_word w
     = ((false, 0),
        mkWorld (disk w) (trace w ++ [Opened (location file_path)])%list)
  \/ exists presentation presentation' total returned,
       disk w !! location file_path = Some (mkFile (Some presentation) true)
       /\ walk subn search replace_dict replace_all match_case whole_word
               presentation
          = Ok (presentation', total, returned)
       /\ replace_text_old subn search file_path replace_dict replace_all
                           match_case whole_word w
          = ((true, total),
             mkWorld (<[location file_path := mkFile (Some presentation') true]>
                        (disk w))
                     (trace w ++ [Opened (location file_path);
                                  Saved (location file_path)])%list).
Proof.
  unfold replace_text_old, replace_text_old_body, mbind, IO_bind, path_exists.
  destruct (negb _ || negb _); [by left|].
  unfold load, lift, save.
  destruct (disk w !! location file_path) as [[[presentation|] writable]|] eqn:Hfile;
    [| by right; left | by right; left].
  destruct (walk _ _ _ _ _ _ presentation) as [[[presentation' total] returned]|]
    eqn:Hwalk; [| by right; left].
  destruct writable.
  - right; right. exists presentation, presentation', total, returned.
    split_and!; [done | done |].
    destruct returned; cbn [disk trace]; rewrite Hfile; cbn [mret IO_ret];
      by rewrite <- app_assoc.
  - right; left. destruct returned; cbn [disk trace]; by rewrite Hfile.
Qed.

End calls.

(** *** A mapping without an entry of two strings *)

Definition both_str (item : PyVal * PyVal) : bool :=
  match item with
  | (PStr _, PStr _) => true
  | _ => false
  end.

Lemma for_each_idle {A} (visit : A -> Z -> result (A * Z * bool)) t xs :
  (forall x, visit x t = Ok (x, t, false)) ->
  for_each visit xs t = Ok (xs, t, false).
Proof.
  intros Hv. induction xs as [|x xs IH]; [done|].
  cbn [for_each]. rewrite Hv, bind_ok, IH. by rewrite bind_ok.
Qed.

Section idle.
Variable subn : string -> string -> string -> bool -> result (string * Z).
Variable search : string -> string -> bool -> result (option Re.Match).
Variable replace_dict : Dict.
Variables replace_all match_case whole_word : bool.
Hypothesis no_strings : forallb (fun item => negb (both_str item)) replace_dict = true.

Lemma for_items_idle new_text run total :
  for_items subn search replace_all match_case whole_word replace_dict
            new_text run total
  = Ok (new_text, run, total).
Proof.
  induction replace_dict as [|[k v] items IH]; [done|].
  cbn [forallb] in no_strings. apply andb_true_iff in no_strings as [Hi Hr].
  destruct k, v; try discriminate; cbn [for_items]; by apply IH.
Qed.

Lemma visit_run_idle run :
  visit_run subn search replace_dict replace_all match_case whole_word run 0
  = Ok (run, 0, false).
Proof.
  unfold visit_run. destruct (is_empty (f_text run)); [done|].
  rewrite for_items_idle, bind_ok, String.eqb_refl. cbn [negb].
  by rewrite andb_false_r.
Qed.

Lemma walk_idle presentation :
  walk subn search replace_dict replace_all match_case whole_word presentation
  = Ok (presentation, 0, false).
Proof.
  unfold walk. rewrite for_each_idle; [by destruct presentation|].
  intros slide. unfold visit_slide.
  rewrite for_each_idle; [by destruct slide|].
  intros shape. unfold visit_shape.
  assert (visit_optional
            (visit_text_frame subn search replace_dict replace_all match_case
                              whole_word) (text_frame shape) 0
          = Ok (text_frame shape, 0, false)) as ->; [|by destruct shape].
  destruct (text_frame shape) as [tf|]; [|done]. cbn [visit_optional].
  unfold visit_text_frame. rewrite for_each_idle; [by destruct tf|].
  intros p. unfold visit_paragraph. apply for_each_idle, visit_run_idle.
Qed.

End idle.

End OldFacts.

Module OldExtras.
Import PyStr Engine Walker Examples EngineFacts WalkerMore Old OldFacts.

(** A slide whose only shape has a text box and a chart with a title. *)
Definition titled_chart : Chart :=
  mkChart (Some (mkChartTitle (Some (mkTextFrame [[mkFragment "name" 3]])))).

Definition chart_deck : Presentation :=
  mkPresentation
    [mkSlide [mkShape (Some (mkTextFrame [scenario1])) (Some titled_chart)]].

Definition chart_world : World :=
  mkWorld {[ "deck.pptx" := mkFile (Some chart_deck) true ]} [].

(** X17. Without replace_all, [replace_text_old] returns a count of 0 or
    1, whatever the mapping, the document and the regular-expression
    matches are: the first run in which a key is found ends the call. *)
Theorem old_first_only_counts_one subn search file_path replace_dict
    match_case whole_word w :
  (replace_text_old subn search file_path replace_dict false match_case
                    whole_word w).1.2 = 0
  \/ (replace_text_old subn search file_path replace_dict false match_case
                       whole_word w).1.2 = 1.
Proof.
  destruct (replace_text_old_outcome subn search replace_dict match_case
              whole_word file_path false w)
    as [-> | [-> | (pres & pres' & total & r & _ & Hwalk & ->)]]; cbn [fst snd];
    [by left | by left |].
  apply (old_walk_post subn search replace_dict match_case whole_word false
           (first_only 1) (first_only_stay 1) (first_only_then 1)
           (fun _ _ => True) (fun _ => I)
           (run_first_only subn search replace_dict match_case whole_word))
    in Hwalk as [_ HQ].
  destruct (HQ eq_refl) as [[_ ->] | [_ ?]]; [by left | right; lia].
Qed.

(** X18. A call of [replace_text_old] that returns true saves a
    presentation with the same slides, shapes, paragraphs and runs: every
    run keeps its style handle, no run is added or dropped, and every
    chart is left exactly as it was (chart titles are not visited). *)
Theorem old_keeps_runs_and_charts subn search file_path replace_dict
    replace_all match_case whole_word w presentation :
  disk w !! location file_path = Some (mkFile (Some presentation) true) ->
  (replace_text_old subn search file_path replace_dict replace_all match_case
                    whole_word w).1.1 = true ->
  exists presentation',
    disk (replace_text_old subn search file_path replace_dict replace_all
                           match_case whole_word w).2 !! location file_path
    = Some (mkFile (Some presentation') true)
    /\ same_slides (fun f f' => f_font f' = f_font f)
                   presentation presentation'.
Proof.
  intros Hfile.
  destruct (replace_text_old_outcome subn search replace_dict match_case
              whole_word file_path replace_all w)
    as [-> | [-> | (pres & pres' & total & r & Hpres & Hwalk & ->)]];
    [discriminate | discriminate |].
  intros _. rewrite Hfile in Hpres. injection Hpres as <-.
  exists pres'. cbn [snd disk]. rewrite lookup_insert_eq. split; [done|].
  by apply (old_walk_post subn search replace_dict match_case whole_word
              replace_all (fun _ _ _ => True) (fun _ => I)
              (fun _ _ _ _ _ _ => I) (fun f f' => f_font f' = f_font f)
              (fun _ => eq_refl)
              (run_keeps_font subn search replace_dict match_case whole_word
                              replace_all))
    in Hwalk as [HR _].
Qed.

(** [re.search] as it answers for the whole word name in the text of
    the one run; without replace_all [re.subn] is not called. *)
Lemma old_keeps_runs_and_charts_witness :
  exists presentation',
    disk (replace_text_old
            (fun _ _ text _ => Ok (text, 0))
            (fun _ text _ =>
               Ok (if String.eqb text "Hello {{name}}, welcome <name>!"
                   then Some (8, 12) else None))
            deck_path acme false true true chart_world).2 !! location deck_path
    = Some (mkFile (Some presentation') true)
    /\ same_slides (fun f f' => f_font f' = f_font f) chart_deck presentation'.
Proof.
  apply (old_keeps_runs_and_charts
           (fun _ _ text _ => Ok (text, 0))
           (fun _ text _ =>
              Ok (if String.eqb text "Hello {{name}}, welcome <name>!"
                  then Some (8, 12) else None))
           deck_path acme false true true chart_world chart_deck).
  - reflexivity.
  - vm_compute. reflexivity.
Defined.

(** X19. [replace_text_old] has no check of the mapping: given a readable,
    writable file with a valid suffix and a mapping without an entry whose
    key and value are both strings (the empty mapping among them), it
    opens the file, saves it with the content it had and returns
    (true, 0). *)
Theorem old_accepts_mapping_without_strings subn search file_path replace_dict
    replace_all match_case whole_word w presentation :
  valid_suffix file_path ->
  disk w !! location file_path = Some (mkFile (Some presentation) true) ->
  forallb (fun item => negb (both_str item)) replace_dict = true ->
  replace_text_old subn search file_path replace_dict replace_all match_case
                   whole_word w
  = ((true, 0),
     mkWorld (disk w)
             (trace w ++ [Opened (location file_path);
                          Saved (location file_path)])%list).
Proof.
  intros Hsuffix Hfile Hdict.
  unfold replace_text_old, replace_text_old_body, mbind, IO_bind, path_exists.
  rewrite Hfile. rewrite (bool_decide_eq_true_2 _ (mk_is_Some _ _ eq_refl)).
  unfold valid_suffix in Hsuffix. rewrite (bool_decide_eq_true_2 _ Hsuffix).
  cbn [negb orb]. unfold load, lift. rewrite Hfile.
  rewrite (walk_idle subn search replace_dict replace_all match_case
             whole_word Hdict).
  unfold save. cbn [disk trace]. rewrite Hfile. cbn [mret IO_ret].
  rewrite (insert_id _ _ _ Hfile). by rewrite <- app_assoc.
Qed.

Lemma old_accepts_mapping_without_strings_witness :
  replace_text_old (fun _ _ _ _ => Raise ReError) (fun _ _ _ => Raise ReError)
                   deck_path [] false true false (world_of [scenario1])
  = ((true, 0),
     mkWorld (disk (world_of [scenario1]))
             (trace (world_of [scenario1])
              ++ [Opened (location deck_path); Saved (location deck_path)])%list).
Proof.
  apply (old_accepts_mapping_without_strings
           (fun _ _ _ _ => Raise ReError) (fun _ _ _ => Raise ReError)
           deck_path [] false true false (world_of [scenario1])
           (deck_of [scenario1])).
  - vm_compute. left.
  - reflexivity.
  - reflexivity.
Defined.

End OldExtras.

(* ===================================================================== *)
(** ** What the whole-word pattern matches *)
(* ===================================================================== *)

Module WordFacts.
Import PyStr Re Engine ReFacts PyStrFacts.

(** The character at the end of [pre], or [prev] when [pre] is empty. *)
Fixpoint before (prev : option ascii) (pre : string) : option ascii :=
  match pre with
  | EmptyString => prev
  | String c pre' => before (Some c) pre'
  end.


Lemma before_append pre k : forall prev,
  before prev (pre +:+ k) = before (before prev pre) k.
Proof.
  induction pre as [|c pre IH]; intros prev; [reflexivity|].
  rewrite append_cons. cbn [before]. apply IH.
Qed.









End WordFacts.

Module WordExtras.
Import PyStr Re Engine ReFacts PyStrFacts WordFacts.



End WordExtras.
